(** * SM3 hash engine and SM2 key pairs of node-gm: a shallow embedding.

    The JavaScript sources [sm_sm3.js] and [sm_sm2.js] are transcribed
    function by function.  JavaScript numbers that the code keeps in the
    32-bit range are integers of [Z] with the wrap-around of the bit
    operators written out; byte arrays are [list Z]; thrown exceptions
    are the [Throw] outcome of [result]. *)

From Stdlib Require Import ZArith List Lia Bool String Ascii.
Import ListNotations.

Local Open Scope string_scope.
Local Open Scope list_scope.
Local Open Scope Z_scope.

(** ** Outcomes of a call: a value, or a thrown [Error]. *)

Inductive result (A : Type) : Type :=
| Ok (a : A)
| Throw (e : string).

Arguments Ok {A} a.
Arguments Throw {A} e.

Definition bind {A B : Type} (m : result A) (k : A -> result B) : result B :=
  match m with
  | Ok a => k a
  | Throw e => Throw e
  end.

Notation "x <- m ;; k" := (bind m (fun x => k))
  (at level 61, m at next level, right associativity).

(** ** JavaScript primitives used by the sources. *)

Module JS.

Definition len (l : list Z) : Z := Z.of_nat (List.length l).

(** [x >>> 0]: the unsigned 32-bit value of an integer. *)
Definition u32 (x : Z) : Z := Z.land x 0xffffffff.

(** [x << n] and [x >>> n], the shift count taken modulo 32; the
    results are read as unsigned 32-bit values. *)
Definition shl (x n : Z) : Z := u32 (Z.shiftl (u32 x) (n mod 32)).
Definition shru (x n : Z) : Z := Z.shiftr (u32 x) (n mod 32).

(** [a[i]] inside a bit operation: a hole or an index out of range
    reads [undefined], which the operators take as 0. *)
Definition get (a : list Z) (i : Z) : Z :=
  if i <? 0 then 0 else nth (Z.to_nat i) a 0.

(** [Array.prototype.slice(b, e)], negative indices counting from the
    end of the array. *)
Definition slice (a : list Z) (b e : Z) : list Z :=
  let n := len a in
  let k := if b <? 0 then Z.max (n + b) 0 else Z.min b n in
  let f := if e <? 0 then Z.max (n + e) 0 else Z.min e n in
  firstn (Z.to_nat (f - k)) (skipn (Z.to_nat k) a).

Definition hexdigit (d : Z) : ascii :=
  if d <? 10 then ascii_of_N (Z.to_N (48 + d))
  else ascii_of_N (Z.to_N (87 + d)).

Fixpoint hex_loop (fuel : nat) (n : Z) (acc : string) : string :=
  match fuel with
  | O => acc
  | S f =>
      if n <=? 0 then acc
      else hex_loop f (n / 16) (String (hexdigit (n mod 16)) acc)
  end.

(** [Number.prototype.toString(16)] on a non-negative integer: the
    shortest lowercase rendering, ["0"] for zero. *)
Definition toString16 (n : Z) : string :=
  if n <=? 0 then "0"
  else hex_loop (S (Z.to_nat (Z.log2 n))) n "".

(** [m < 64] with an array on the left: the array is converted to the
    string of its elements joined by commas and then to a number.  The
    empty array gives 0, a one-element array its element, and a longer
    one [NaN], which compares false. *)
Definition array_lt (m : list Z) (bound : Z) : bool :=
  match m with
  | [] => 0 <? bound
  | [x] => x <? bound
  | _ :: _ :: _ => false
  end.

End JS.

(** ** sm_utils (not part of the transcribed sources) *)

(** Modelled from the spec: [utils.strToBytes] of the missing module
    [sm_utils] is the UTF-8 encoding of a string.  A string is kept here
    as the sequence of its UTF-8 bytes, so that the encoding of an ASCII
    string is the list of its character codes. *)
Definition strToBytes (s : string) : list Z :=
  map (fun c => Z.of_N (N_of_ascii c)) (list_ascii_of_string s).

(** ** sm_sm3.js *)

(** The values [sum] and [write] accept as a message. *)
Inductive message : Type :=
| MUndefined
| MString (s : string)
| MArray (b : list Z).

(** Truthiness of a message in [if (msg)]: [undefined] and the empty
    string are falsy, every array (the empty one too) is truthy. *)
Definition truthy (msg : message) : bool :=
  match msg with
  | MUndefined => false
  | MString EmptyString => false
  | MString _ => true
  | MArray _ => true
  end.

(** What [sum] returns: a hex string, or an array of 32 bytes. *)
Inductive digest : Type :=
| DHex (s : string)
| DBytes (b : list Z).

Module SM3.

Import JS.

(** The fields [this.reg], [this.chunk] and [this.size].  [size] is a
    JavaScript number that [write] adds lengths to: the integer of the
    model is that number as long as the count stays within the integers
    that a number holds exactly, those up to [max_exact = 2^53]. *)
Record t : Type := mk { reg : list Z; chunk : list Z; size : Z }.

Definition max_exact : Z := 2 ^ 53.

Definition iv : list Z :=
  [0x7380166f; 0x4914b2b9; 0x172442d7; 0xda8a0600;
   0xa96f30bc; 0x163138aa; 0xe38dee4d; 0xb0fb0e4e].

Definition reset (h : t) : t := mk iv [] 0.

(** [new SM3()] *)
Definition create : t := reset (mk (repeat 0 8) [] 0).

Definition _t (j : Z) : result Z :=
  if (0 <=? j) && (j <? 16) then Ok 0x79cc4519
  else if (16 <=? j) && (j <? 64) then Ok 0x7a879d8a
  else Throw "invalid j for constant Tj".

Definition _rotl (x n : Z) : Z :=
  let n := n mod 32 in
  u32 (Z.lor (shl x n) (shru x (32 - n))).

Definition _ff (j x y z : Z) : result Z :=
  if (0 <=? j) && (j <? 16) then Ok (u32 (Z.lxor (Z.lxor x y) z))
  else if (16 <=? j) && (j <? 64) then
    Ok (u32 (Z.lor (Z.lor (Z.land x y) (Z.land x z)) (Z.land y z)))
  else Throw "invalid j for bool function FF".

Definition _gg (j x y z : Z) : result Z :=
  if (0 <=? j) && (j <? 16) then Ok (u32 (Z.lxor (Z.lxor x y) z))
  else if (16 <=? j) && (j <? 64) then
    Ok (u32 (Z.lor (Z.land x y) (Z.land (Z.lnot x) z)))
  else Throw "invalid j for bool function GG".

(** The first loop of [_expand]: sixteen big-endian words of the block. *)
Definition word_of (b : list Z) (i : Z) : Z :=
  u32 (Z.lor (Z.lor (Z.lor (shl (get b (i * 4)) 24)
                           (shl (get b (i * 4 + 1)) 16))
                    (shl (get b (i * 4 + 2)) 8))
             (u32 (get b (i * 4 + 3)))).

(** The second loop of [_expand], [w[j]] for [j = 16 .. 67]. *)
Fixpoint expand_w (n : nat) (j : Z) (w : list Z) : list Z :=
  match n with
  | O => w
  | S n' =>
      let x := Z.lxor (Z.lxor (get w (j - 16)) (get w (j - 9)))
                      (_rotl (get w (j - 3)) 15) in
      let x := Z.lxor (Z.lxor x (_rotl x 15)) (_rotl x 23) in
      let v := u32 (Z.lxor (Z.lxor x (_rotl (get w (j - 13)) 7))
                           (get w (j - 6))) in
      expand_w n' (j + 1) (w ++ [v])
  end.

(** The third loop of [_expand], [w[j + 68]] for [j = 0 .. 63]. *)
Definition expand_w' (w : list Z) : list Z :=
  map (fun j => u32 (Z.lxor (get w j) (get w (j + 4))))
      (map Z.of_nat (seq 0 64)).

Definition _expand (b : list Z) : list Z :=
  let w := expand_w 52 16 (map (fun i => word_of b (Z.of_nat i)) (seq 0 16)) in
  w ++ expand_w' w.

(** One turn of the 64-step loop of [_compress]. *)
Definition step (w r : list Z) (j : Z) : result (list Z) :=
  tj <- _t j ;;
  let ss1 := _rotl (get r 0) 12 + get r 4 + _rotl tj j in
  let ss1 := u32 ss1 in
  let ss1 := _rotl ss1 7 in
  let ss2 := u32 (Z.lxor ss1 (_rotl (get r 0) 12)) in
  tt1 <- _ff j (get r 0) (get r 1) (get r 2) ;;
  let tt1 := tt1 + get r 3 + ss2 + get w (j + 68) in
  let tt1 := u32 tt1 in
  tt2 <- _gg j (get r 4) (get r 5) (get r 6) ;;
  let tt2 := tt2 + get r 7 + ss1 + get w j in
  let tt2 := u32 tt2 in
  Ok [tt1; get r 0; _rotl (get r 1) 9; get r 2;
      u32 (Z.lxor (Z.lxor tt2 (_rotl tt2 9)) (_rotl tt2 17));
      get r 4; _rotl (get r 5) 19; get r 6].

Definition steps (w : list Z) (r : list Z) (js : list Z) : result (list Z) :=
  fold_left (fun acc j => r <- acc ;; step w r j) js (Ok r).

Definition rounds : list Z := map Z.of_nat (seq 0 64).

(** The last loop of [_compress]: [reg[i] = (reg[i] ^ r[i]) >>> 0]. *)
Definition xor_regs (v r : list Z) : list Z :=
  map (fun i => u32 (Z.lxor (get v i) (get r i))) (map Z.of_nat (seq 0 8)).

Definition _compress (h : t) (m : list Z) : result t :=
  if array_lt m 64 then Throw "compress error: not enough data"
  else
    let w := _expand m in
    r <- steps w (reg h) rounds ;;
    Ok (mk (xor_regs (reg h) r) (chunk h) (size h)).

(** The [while] loop of [write]; [fuel] bounds the number of turns and
    [None] is the loop cut short by the bound. *)
Fixpoint write_loop (fuel : nat) (m : list Z) (h : t) (i : Z)
  : option (result t) :=
  if 64 <=? len (chunk h) then
    match fuel with
    | O => None
    | S fuel' =>
        match _compress h (chunk h) with
        | Throw e => Some (Throw e)
        | Ok h1 =>
            let c := if i <? len m
                     then slice m i (Z.min (i + 64) (len m))
                     else [] in
            write_loop fuel' m (mk (reg h1) c (size h1)) (i + 64)
        end
    end
  else Some (Ok h).

Definition bytes_of (msg : message) : result (list Z) :=
  match msg with
  | MString s => Ok (strToBytes s)
  | MArray b => Ok b
  | MUndefined => Throw "TypeError: cannot read property length of undefined"
  end.

Definition write_fuel (fuel : nat) (h : t) (msg : message)
  : option (result t) :=
  match bytes_of msg with
  | Throw e => Some (Throw e)
  | Ok m =>
      let h := mk (reg h) (chunk h) (size h + len m) in
      let i := 64 - len (chunk h) in
      if len m <? i then Some (Ok (mk (reg h) (chunk h ++ m) (size h)))
      else
        write_loop fuel m (mk (reg h) (chunk h ++ slice m 0 i) (size h)) i
  end.

(** A bound on the turns of the loop of [write] that is never reached
    (see [write_fuel_enough]). *)
Definition turns (h : t) (msg : message) : nat :=
  match bytes_of msg with
  | Ok m => S (List.length (chunk h) + List.length m)
  | Throw _ => O
  end.

Definition write (h : t) (msg : message) : result t :=
  match write_fuel (turns h msg) h msg with
  | Some r => r
  | None => Throw "unreachable: loop bound"
  end.

Definition _fill (h : t) : t :=
  let l := size h * 8 in
  let c := chunk h ++ [0x80] in
  let n := len c mod 64 in
  let n := if 64 - n <? 8 then n - 64 else n in
  let c := c ++ repeat 0 (Z.to_nat (56 - n)) in
  let hi := l / 0x100000000 in
  let c := c ++ map (fun i => Z.land (shru hi ((3 - i) * 8)) 0xff) [0; 1; 2; 3] in
  let c := c ++ map (fun i => Z.land (shru l ((3 - i) * 8)) 0xff) [0; 1; 2; 3] in
  mk (reg h) c (size h).

(** The four bytes [digest[i*4] .. digest[i*4+3]] of one register. *)
Definition bytes_of_word (x : Z) : list Z :=
  let b3 := u32 (Z.land x 0xff) in
  let x := shru x 8 in
  let b2 := u32 (Z.land x 0xff) in
  let x := shru x 8 in
  let b1 := u32 (Z.land x 0xff) in
  let x := shru x 8 in
  let b0 := u32 (Z.land x 0xff) in
  [b0; b1; b2; b3].

Definition is_hex (enc : option string) : bool :=
  match enc with
  | Some e => String.eqb e "hex"
  | None => false
  end.

(** [sum(msg, enc)]: the digest and the engine after the call. *)
Definition sum (h : t) (msg : message) (enc : option string)
  : result (digest * t) :=
  h <- (if truthy msg then write (reset h) msg else Ok h) ;;
  let h := _fill h in
  let blocks := map (fun k => slice (chunk h) (64 * Z.of_nat k) (64 * Z.of_nat k + 64))
                    (seq 0 (Z.to_nat ((len (chunk h) + 63) / 64))) in
  h <- fold_left (fun acc b => h <- acc ;; _compress h b) blocks (Ok h) ;;
  let d := if is_hex enc
           then DHex (fold_left (fun acc i => (acc ++ toString16 (get (reg h) i))%string)
                                (map Z.of_nat (seq 0 8)) "")
           else DBytes (flat_map (fun i => bytes_of_word (get (reg h) i))
                                 (map Z.of_nat (seq 0 8))) in
  Ok (d, reset h).

(** [write(a1); ...; write(ak)] on one engine. *)
Definition writes (h : t) (parts : list message) : result t :=
  fold_left (fun acc p => h <- acc ;; write h p) parts (Ok h).

(** The registers after [_compress] of one block, as a function of the
    registers before it. *)
Definition compress_reg (r m : list Z) : list Z :=
  match steps (_expand m) r rounds with
  | Ok r' => xor_regs r r'
  | Throw _ => r
  end.

(** [absorbs_with f r d r' rest]: taking the full 64-byte blocks of [d]
    in order through [f] leads from the registers [r] to [r'] and leaves
    the tail [rest], shorter than a block. *)
Inductive absorbs_with (f : list Z -> list Z -> list Z)
  : list Z -> list Z -> list Z -> list Z -> Prop :=
| absorbs_done r d :
    len d < 64 -> absorbs_with f r d r d
| absorbs_block r b d r' rest :
    len b = 64 -> absorbs_with f (f r b) d r' rest ->
    absorbs_with f r (b ++ d) r' rest.

(** The blocks of [d] compressed in order. *)
Definition absorbs : list Z -> list Z -> list Z -> list Z -> Prop :=
  absorbs_with compress_reg.

End SM3.

(** ** The helper module beside sm_sm3.js (sm3Digest) *)

(** [('0' + (byte & 0xFF).toString(16)).slice(-2)] *)
Definition byte_hex (b : Z) : string :=
  let s := ("0" ++ JS.toString16 (Z.land b 0xff))%string in
  substring (String.length s - 2) 2 s.

(** [byte & 0xFF] on a one-character string, as [Array.from] yields for a
    string digest: a decimal digit is its value, any other character of
    a hex string converts to [NaN] and gives 0. *)
Definition char_and_ff (c : ascii) : Z :=
  let n := Z.of_N (N_of_ascii c) in
  if (48 <=? n) && (n <=? 57) then n - 48 else 0.

(** [sm3Digest(msg)], [msg] an array-like of bytes. *)
Definition sm3Digest (msg : list Z) : result string :=
  r <- SM3.sum SM3.create (MArray msg) None ;;
  match fst r with
  | DBytes bs => Ok (String.concat "" (map byte_hex bs))
  | DHex s =>
      Ok (String.concat ""
            (map (fun c => byte_hex (char_and_ff c)) (list_ascii_of_string s)))
  end.

(** ** bn.js (version 4, the one elliptic loads): the operations used *)

Module BN.

Definition code (c : ascii) : Z := Z.of_N (N_of_ascii c).

(** The value of one character in [new BN(str, 16)]. *)
Definition hex_val (c : ascii) : Z :=
  let n := code c in
  if (65 <=? n) && (n <=? 70) then n - 55
  else if (97 <=? n) && (n <=? 102) then n - 87
  else Z.land (n - 48) 0xf.

(** The value of one character in [new BN(str)] and [new BN(str, 10)]:
    letters count as the digits ten and above of a larger base. *)
Definition base_val (c : ascii) : Z :=
  let n := code c - 48 in
  if 49 <=? n then n - 49 + 10
  else if 17 <=? n then n - 17 + 10
  else n.

Definition is_space (c : ascii) : bool :=
  let n := code c in ((9 <=? n) && (n <=? 13)) || (n =? 32).

Fixpoint strip (s : string) : string :=
  match s with
  | EmptyString => EmptyString
  | String c s' => if is_space c then strip s' else String c (strip s')
  end.

Fixpoint digits (val : ascii -> Z) (base : Z) (s : string) (acc : Z) : Z :=
  match s with
  | EmptyString => acc
  | String c s' => digits val base s' (acc * base + val c)
  end.

Definition parse (val : ascii -> Z) (base : Z) (s : string) : Z :=
  match strip s with
  | String "-" s' => - digits val base s' 0
  | s' => digits val base s' 0
  end.

(** [new BN(str, 16)] *)
Definition of_hex (s : string) : Z := parse hex_val 16 s.

(** [new BN(str)]: the base defaults to ten. *)
Definition of_dec (s : string) : Z := parse base_val 10 s.

(** [new BN(bytes, 16)] on an array of bytes: the big-endian value. *)
Definition of_bytes (b : list Z) : Z :=
  fold_left (fun acc x => acc * 256 + x) b 0.

Fixpoint pad_loop (fuel : nat) (padding : Z) (s : string) : string :=
  match fuel with
  | O => s
  | S f =>
      if Z.of_nat (String.length s) mod padding =? 0 then s
      else pad_loop f padding (String "0" s)
  end.

(** [toString(16, padding)]: zeros are put in front until the length
    is a multiple of [padding]; [padding] defaults to 1. *)
Definition toString16 (v : Z) (padding : Z) : string :=
  let padding := if padding =? 0 then 1 else padding in
  let out := pad_loop (Z.to_nat padding) padding (JS.toString16 (Z.abs v)) in
  if v <? 0 then String "-" out else out.

Definition byteLength (v : Z) : Z :=
  if v =? 0 then 0 else (Z.log2 (Z.abs v) + 8) / 8.

(** [bitLength()]: the number of bits of the magnitude, 0 for zero. *)
Definition bitLength (v : Z) : Z :=
  if v =? 0 then 0 else Z.log2 (Z.abs v) + 1.

(** The [n] low bytes of [v], most significant first. *)
Fixpoint be_bytes (n : nat) (v : Z) : list Z :=
  match n with
  | O => []
  | S n' => be_bytes n' (v / 256) ++ [v mod 256]
  end.

(** [toArray('be', length)]; [length = 0] stands for a missing length:
    then the array has as many bytes as the value needs, and one for
    zero. *)
Definition toArray (v : Z) (length : Z) : result (list Z) :=
  let byteLen := byteLength v in
  let reqLength := if length =? 0 then Z.max 1 byteLen else length in
  if reqLength <? byteLen then Throw "byte array longer than desired length"
  else Ok (be_bytes (Z.to_nat reqLength) (Z.abs v)).

Fixpoint egcd (fuel : nat) (r0 r1 s0 s1 : Z) : Z :=
  match fuel with
  | O => s0
  | S f =>
      if r1 =? 0 then s0
      else let q := r0 / r1 in egcd f r1 (r0 - q * r1) s1 (s0 - q * s1)
  end.

(** [invm(m)], the inverse modulo [m] of a value prime to [m]. *)
Definition invm (a m : Z) : Z :=
  egcd (Z.to_nat (2 * Z.log2 m + 2)) m (a mod m) 0 1 mod m.

Fixpoint pow_pos (a : Z) (e : positive) (m : Z) : Z :=
  match e with
  | xH => a mod m
  | xO e' => let h := pow_pos a e' m in (h * h) mod m
  | xI e' => let h := pow_pos a e' m in (((h * h) mod m) * a) mod m
  end.

(** [redPow] of the reduction context of modulus [m]. *)
Definition powm (a e m : Z) : Z :=
  match e with
  | Zpos e' => pow_pos a e' m
  | _ => 1 mod m
  end.

End BN.

(** ** elliptic: the short Weierstrass curve with the parameters of SM2 *)

Module Curve.

Definition p : Z := 0xFFFFFFFEFFFFFFFFFFFFFFFFFFFFFFFFFFFFFFFF00000000FFFFFFFFFFFFFFFF.
Definition a : Z := 0xFFFFFFFEFFFFFFFFFFFFFFFFFFFFFFFFFFFFFFFF00000000FFFFFFFFFFFFFFFC.
Definition b : Z := 0x28E9FA9E9D9F5E344D5A9E4BCF6509A7F39789F515AB8F92DDBCBD414D940E93.
Definition n : Z := 0xFFFFFFFEFFFFFFFFFFFFFFFFFFFFFFFF7203DF6B21C6052B53BBF40939D54123.
Definition gx : Z := 0x32C4AE2C1F1981195F9904466A39C9948FE30BBFF2660BE1715A4589334C74C7.
Definition gy : Z := 0xBC3736A2F4F6779C59BDCEE36B692153D0A9877CC62A474002DF32E52139F0A0.

(** A point of elliptic: the point at infinity (coordinates [null]) or
    an affine point with coordinates reduced modulo [p]. *)
Inductive point : Type :=
| Inf
| Aff (x y : Z).

Definition g : point := Aff gx gy.

(** [curve.point(x, y)]: both coordinates enter the reduction context. *)
Definition mkpoint (x y : Z) : point := Aff (x mod p) (y mod p).

Definition isInfinity (P : point) : bool :=
  match P with Inf => true | Aff _ _ => false end.

(** [getX()] and [getY()]; at infinity the coordinate is [null] and the
    call throws. *)
Definition getX (P : point) : result Z :=
  match P with
  | Inf => Throw "TypeError: Cannot read properties of null (reading 'fromRed')"
  | Aff x _ => Ok x
  end.

Definition getY (P : point) : result Z :=
  match P with
  | Inf => Throw "TypeError: Cannot read properties of null (reading 'fromRed')"
  | Aff _ y => Ok y
  end.

Definition eq (P Q : point) : bool :=
  match P, Q with
  | Inf, Inf => true
  | Aff x1 y1, Aff x2 y2 => (x1 =? x2) && (y1 =? y2)
  | _, _ => false
  end.

Definition neg (P : point) : point :=
  match P with
  | Inf => Inf
  | Aff x y => Aff x ((- y) mod p)
  end.

(** [curve.validate(point)] *)
Definition validate (P : point) : bool :=
  match P with
  | Inf => true
  | Aff x y => (y * y - (x * x * x + a * x + b)) mod p =? 0
  end.

Definition dbl (P : point) : point :=
  match P with
  | Inf => Inf
  | Aff x y =>
      let ys1 := (y + y) mod p in
      if ys1 =? 0 then Inf
      else
        let c := ((3 * x * x + a) * BN.invm ys1 p) mod p in
        let nx := (c * c - (x + x)) mod p in
        let ny := (c * (x - nx) - y) mod p in
        Aff nx ny
  end.

Definition add (P Q : point) : point :=
  match P, Q with
  | Inf, _ => Q
  | _, Inf => P
  | Aff x1 y1, Aff x2 y2 =>
      if eq P Q then dbl P
      else if eq (neg P) Q then Inf
      else if x1 =? x2 then Inf
      else
        let c := (y1 - y2) mod p in
        let c := if c =? 0 then c else (c * BN.invm (x1 - x2) p) mod p in
        let nx := (c * c - x1 - x2) mod p in
        let ny := (c * (x1 - nx) - y1) mod p in
        Aff nx ny
  end.

Fixpoint mul_pos (k : positive) (P : point) : point :=
  match k with
  | xH => P
  | xO k' => dbl (mul_pos k' P)
  | xI k' => add (dbl (mul_pos k' P)) P
  end.

(** [[v]P] for an integer [v]. *)
Definition mul_int (P : point) (v : Z) : point :=
  match v with
  | Zpos v' => mul_pos v' P
  | Z0 => Inf
  | Zneg v' => neg (mul_pos v' P)
  end.

(** The digits [naf] of [getNAF(k, 4, 256)], added up as
    [naf[0] + 2 naf[1] + 4 naf[2] + ...] over [len] digits.  The loop
    keeps [k] as a sign and a magnitude: [andln] and [isOdd] read the low
    bits of the magnitude, [isubn] subtracts as on integers and
    [iushrn(1)] halves the magnitude. *)
Fixpoint naf_sum (len : nat) (k : Z) : Z :=
  match len with
  | O => 0
  | S len' =>
      let md := Z.land (Z.abs k) 31 in
      let z := if Z.odd k then (if 15 <? md then 16 - md else md) else 0 in
      z + 2 * naf_sum len' (Z.quot (k - z) 2)
  end.

(** The number of digits: [Math.max(k.bitLength(), 256) + 1]. *)
Definition naf_len (k : Z) : nat :=
  Z.to_nat (Z.max (BN.bitLength k) 256 + 1).

(** [P.mul(k)]: the sum of the multiples of [P] that the digits of
    [getNAF] select.  For [k >= 0] the digits add up to [k] (see
    [naf_sum_nonneg]) and the result is the [k]-fold sum of [P]; for
    [k < 0] the loop of [getNAF] does not reach 0 and the digits add up
    to another number, [2^257 - 1] for [k = -1]. *)
Definition mul (P : point) (k : Z) : point :=
  match k with
  | Zpos k' => mul_pos k' P
  | Z0 => Inf
  | Zneg _ => mul_int P (naf_sum (naf_len k) k)
  end.

(** [redSqrt] in a field with [p mod 4 = 3]: the power [(p + 1) / 4],
    whether or not the argument is a square. *)
Definition redSqrt (v : Z) : Z :=
  if v =? 0 then 0 else BN.powm v ((p + 1) / 4) p.

Definition redNeg (v : Z) : Z := if v =? 0 then 0 else p - v.

(** The point [[107]G]; its ordinate has a leading zero byte. *)
Definition x_107 : Z :=
  26795783915881859570924565118440521643604179812363360971997905300111162239559.
Definition y_107 : Z :=
  218227367051745642732845377945872976958193619045362053378511376564799259547.
Definition pub_107 : point := Aff x_107 y_107.

(** The even ordinate of the curve at the abscissa 0, a square root of
    [b]. *)
Definition y_at_0 : Z :=
  114557186725876290861691515918605366036669664069916546847469019535645696966996.

End Curve.

(** ** hmac-drbg and sm_utils, as far as sm_sm2.js uses them *)

(** The generator [_drbg] is a value of the module, advanced by every
    call.  A run of the program is described by the sequence of its
    outputs: [rng i] is the array of 32 bytes that the [i]-th call of
    [_drbg.generate(32, ...)] produces, and the state of the generator is
    the number of calls made so far. *)
Definition drbg : Type := nat -> list Z.

(** [zero2(byte.toString(16))] of hash.js, the two hex digits of a byte. *)
Definition zero2 (b : Z) : string :=
  let w := JS.toString16 b in
  if (String.length w =? 1)%nat then String "0" w else w.

(** [_drbg.generate(32, 'hex', ...)]: the output rendered in hex. *)
Definition generate_hex (rng : drbg) (i : nat) : string :=
  String.concat "" (map zero2 (rng i)).

(** Modelled from the spec: [utils.hashToBN] of the missing module
    [sm_utils] reads the digest as a big-endian integer. *)
Definition hashToBN (digest : list Z) : Z := BN.of_bytes digest.

(** ** sm_sm2.js *)

Module SM2.

Import Curve.

(** A coordinate handed to [_sm2Point]: a hex string or a byte array. *)
Inductive coord : Type :=
| CString (s : string)
| CArray (b : list Z).

Definition coord_truthy (c : coord) : bool :=
  match c with
  | CString EmptyString => false
  | _ => true
  end.

(** [new BN(x, 16)] *)
Definition bn (c : coord) : Z :=
  match c with
  | CString s => BN.of_hex s
  | CArray b => BN.of_bytes b
  end.

Definition truthy_coord (y : option coord) : option coord :=
  match y with
  | Some yc => if coord_truthy yc then Some yc else None
  | None => None
  end.

(** Whether [new BN(x, 16)] is negative: a string with a leading '-'
    and a value other than 0; the number read from an array never is. *)
Definition negative (c : coord) : bool :=
  match c with
  | CString s => BN.of_hex s <? 0
  | CArray _ => false
  end.

(** The error of [toRed] on a negative number. *)
Definition red_positive_error : string := "red works only with positives".

(** [_sm2Point(x, y, parity)]; [odd] is [parity === 'odd'].  Both
    [this.point(x, y)] and [new BN(x, 16).toRed(this.red)] refuse a
    negative number. *)
Definition _sm2Point (x : coord) (y : option coord) (odd : bool)
  : result point :=
  if negb (coord_truthy x) then Ok (mkpoint 0 0)
  else
    match truthy_coord y with
    | Some yc =>
        if negative x || negative yc then Throw red_positive_error
        else
          let pt := mkpoint (bn x) (bn yc) in
          if negb (validate pt) then Throw "point is not on curve"
          else Ok pt
    | None =>
        if negative x then Throw red_positive_error
        else
          let px := bn x mod p in
          let py := (((px * px) mod p) * px) mod p in
          let py := redSqrt (((py + (px * a) mod p) mod p + b) mod p) in
          let py := if Bool.eqb odd (Z.odd py) then py else redNeg py in
          Ok (mkpoint px py)
    end.

Definition slen (s : string) : Z := Z.of_nat (String.length s).

(** [_pubFromString(s)], returning the point it stores in [this.pub]. *)
Definition _pubFromString (s : string) : result point :=
  if slen s <? 66 then Throw "invalid key string"
  else
    let x := CString (substring 2 64 s) in
    let tag := substring 0 2 s in
    if String.eqb tag "00" then Throw "public key should not be infinity"
    else if String.eqb tag "02" then _sm2Point x None false
    else if String.eqb tag "03" then _sm2Point x None true
    else if String.eqb tag "04" || String.eqb tag "06" || String.eqb tag "07"
    then
      if slen s <? 130 then Throw "invalid key string"
      else _sm2Point x (Some (CString (substring 66 64 s))) false
    else Throw "invalid key string".

(** [_pubFromBytes(b)] *)
Definition _pubFromBytes (b : list Z) : result point :=
  if JS.len b <? 33 then Throw "unrecognized key"
  else
    let x := CArray (JS.slice b 1 33) in
    let tag := nth 0 b 0 in
    if tag =? 0 then Throw "public key should not be infinity"
    else if tag =? 2 then _sm2Point x None false
    else if tag =? 3 then _sm2Point x None true
    else if (tag =? 4) || (tag =? 6) || (tag =? 7) then
      if JS.len b <? 65 then Throw "unrecognized key"
      else _sm2Point x (Some (CArray (JS.slice b 33 65))) false
    else Throw "unrecognized key".

(** The object: [this.pub] and [this.pri], each possibly [null]. *)
Record KeyPair : Type := mkKeyPair { pub : option point; pri : option Z }.

(** [validate()] *)
Definition validate (kp : KeyPair) : bool :=
  match pub kp with
  | Some P =>
      if isInfinity P then false
      else if negb (Curve.validate P) then false
      else if negb (isInfinity (mul P n)) then false
      else
        match pri kp with
        | Some d =>
            if d >? n - 2 then false
            else if negb (eq P (mul g d)) then false
            else true
        | None => true
        end
  | None =>
      match pri kp with
      | Some d => if d >? n - 2 then false else true
      | None => true
      end
  end.

(** The first argument of the constructor: a falsy value, a string, an
    array, a point object of elliptic with coordinates [x] and [y], or
    another object. *)
Inductive pub_arg : Type :=
| PubAbsent
| PubString (s : string)
| PubBytes (b : list Z)
| PubPoint (x y : Z)
| PubOther.

(** The second argument: a falsy value, a string, a [BN], or another
    value. *)
Inductive pri_arg : Type :=
| PriAbsent
| PriString (s : string)
| PriBN (d : Z)
| PriOther.

(** The two [if] blocks of the constructor that read the arguments:
    the fields and the flags [validPub], [validPri]. *)
Definition read_pub (a : pub_arg) : result (option point * bool) :=
  match a with
  | PubAbsent => Ok (None, false)
  | PubString EmptyString => Ok (None, false)
  | PubString s => P <- _pubFromString s ;; Ok (Some P, false)
  | PubBytes b => P <- _pubFromBytes b ;; Ok (Some P, false)
  | PubPoint x y => Ok (Some (Aff x y), true)
  | PubOther => Throw "invalid public key"
  end.

Definition read_pri (a : pri_arg) : result (option Z * bool) :=
  match a with
  | PriAbsent => Ok (None, false)
  | PriString EmptyString => Ok (None, false)
  | PriString s => Ok (Some (BN.of_hex s), false)
  | PriBN d => Ok (Some d, true)
  | PriOther => Throw "invalid private key"
  end.

(** [this.pub] once the arguments are read: the public key that was
    given or, when only a private key was given, [G.mul(pri)]. *)
Definition derive_pub (op : option point) (od : option Z) : option point :=
  match od, op with
  | Some d, None => Some (mul g d)
  | _, _ => op
  end.

(** The error of a product of two numbers of different reduction
    contexts. *)
Definition red_context_error : string := "red works only with red numbers".

(** [new SM2KeyPair(pub, pri)].  A point object handed in as [pub] was
    made by another curve object than the [this.curve] that the
    constructor has just created, and its coordinates belong to the
    reduction context of that other curve: when [validate()] runs on it,
    the first product, [this.curve.a.redMul(pub.x)], throws. *)
Definition create (a : pub_arg) (b : pri_arg) : result KeyPair :=
  rp <- read_pub a ;;
  rd <- read_pri b ;;
  let kp := mkKeyPair (derive_pub (fst rp) (fst rd)) (fst rd) in
  if negb (snd rp && snd rd) then
    if snd rp then Throw red_context_error
    else if negb (validate kp) then Throw "invalid key"
    else Ok kp
  else Ok kp.

Definition null_error : string :=
  "TypeError: Cannot read properties of null".

Definition the_pub (kp : KeyPair) : result point :=
  match pub kp with
  | Some P => Ok P
  | None => Throw null_error
  end.

Definition is_mode (mode : option string) (m : string) : bool :=
  match mode with
  | Some s => String.eqb s m
  | None => false
  end.

(** [pubToString(mode)] *)
Definition pubToString (kp : KeyPair) (mode : option string) : result string :=
  P <- the_pub kp ;;
  if is_mode mode "compress" then
    y <- getY P ;;
    let s := if Z.even y then "02" else "03" in
    x <- getX P ;;
    Ok (s ++ BN.toString16 x 32)%string
  else
    s <- (if is_mode mode "mix" then
            y <- getY P ;; Ok (if Z.even y then "06" else "07")
          else Ok "04") ;;
    x <- getX P ;;
    y <- getY P ;;
    Ok (s ++ BN.toString16 x 32 ++ BN.toString16 y 32)%string.

(** [pubToBytes(mode)] *)
Definition pubToBytes (kp : KeyPair) (mode : option string) : result (list Z) :=
  P <- the_pub kp ;;
  if is_mode mode "compress" then
    y <- getY P ;;
    let t := if Z.even y then [2] else [3] in
    x <- getX P ;;
    xs <- BN.toArray x 32 ;;
    Ok (t ++ xs)
  else
    t <- (if is_mode mode "mix" then
            y <- getY P ;; Ok (if Z.even y then [6] else [7])
          else Ok [4]) ;;
    x <- getX P ;;
    xs <- BN.toArray x 32 ;;
    y <- getY P ;;
    ys <- BN.toArray y 32 ;;
    Ok ((t ++ xs) ++ ys).

(** [new sm3().sum(bytes)]: the byte array of the digest. *)
Definition sm3_sum (msg : message) : result (list Z) :=
  r <- SM3.sum SM3.create msg None ;;
  match fst r with
  | DBytes bs => Ok bs
  | DHex _ => Throw "unreachable: hex digest"
  end.

Definition preamble : list Z :=
  [0x00; 0x80; 0x31; 0x32; 0x33; 0x34; 0x35; 0x36; 0x37; 0x38;
   0x31; 0x32; 0x33; 0x34; 0x35; 0x36; 0x37; 0x38].

(** The array [za] of [_combine] before it is hashed. *)
Definition za_input (kp : KeyPair) : result (list Z) :=
  let za := preamble in
  ea <- BN.toArray a 0 ;;
  let za := za ++ ea in
  eb <- BN.toArray b 0 ;;
  let za := za ++ eb in
  x <- getX g ;; ex <- BN.toArray x 0 ;;
  let za := za ++ ex in
  y <- getY g ;; ey <- BN.toArray y 0 ;;
  let za := za ++ ey in
  P <- the_pub kp ;;
  x <- getX P ;; ex <- BN.toArray x 0 ;;
  let za := za ++ ex in
  y <- getY P ;; ey <- BN.toArray y 0 ;;
  Ok (za ++ ey).

(** [_combine(msg)]; an [undefined] message is appended as one hole,
    which the hash reads as a zero byte. *)
Definition _combine (kp : KeyPair) (msg : message) : result (list Z) :=
  za <- za_input kp ;;
  za <- sm3_sum (MArray za) ;;
  match msg with
  | MString s => Ok (za ++ strToBytes s)
  | MArray m => Ok (za ++ m)
  | MUndefined => Ok (za ++ [0])
  end.

Record signature : Type := mkSig { sig_r : string; sig_s : string }.

(** The loop of [signDigest]: [i] counts the calls of the generator so
    far, [fuel] bounds the number of turns and [None] is the loop cut
    short by the bound. *)
Fixpoint signDigest_loop (fuel : nat) (kp : KeyPair) (digest : list Z)
         (rng : drbg) (i : nat) : option (result (signature * nat)) :=
  match fuel with
  | O => None
  | S fuel' =>
      let k := BN.of_hex (generate_hex rng i) mod n in
      let kg := mul g k in
      match getX kg with
      | Throw e => Some (Throw e)
      | Ok x1 =>
          let r := (hashToBN digest + x1) mod n in
          if r =? 0 then signDigest_loop fuel' kp digest rng (S i)
          else if r + k =? n then signDigest_loop fuel' kp digest rng (S i)
          else
            match pri kp with
            | None => Some (Throw null_error)
            | Some d =>
                let t1 := BN.invm (1 + d) n in
                let t2 := (k - r * d) mod n in
                let s := (t1 * t2) mod n in
                if negb (s =? 0) then
                  Some (Ok (mkSig (BN.toString16 r 0) (BN.toString16 s 0),
                            S i))
                else signDigest_loop fuel' kp digest rng (S i)
            end
      end
  end.

(** [verifyDigest(digest, r, s)] *)
Definition verifyDigest (kp : KeyPair) (digest : list Z) (r s : string)
  : result bool :=
  let bnr := BN.of_hex r in
  if bnr >=? n then Ok false
  else
    let bns := BN.of_hex s in
    if bns >=? n then Ok false
    else
      let t := (bnr + bns) mod n in
      if t =? 0 then Ok false
      else
        P <- the_pub kp ;;
        let q := add (mul g bns) (mul P t) in
        x <- getX q ;;
        let R := (hashToBN digest + x) mod n in
        Ok (R =? bnr).

(** [sign(msg)] *)
Definition sign (fuel : nat) (kp : KeyPair) (msg : message)
           (rng : drbg) (i : nat) : option (result (signature * nat)) :=
  match pri kp with
  | None => Some (Throw "cannot sign message without private key")
  | Some _ =>
      let m := match msg with
               | MString s => MArray (strToBytes s)
               | _ => msg
               end in
      match (c <- _combine kp m ;; sm3_sum (MArray c)) with
      | Throw e => Some (Throw e)
      | Ok e => signDigest_loop fuel kp e rng i
      end
  end.

(** [verify(msg, r, s)] *)
Definition verify (kp : KeyPair) (msg : message) (r s : string) : result bool :=
  match pub kp with
  | None => Throw "cannot verify signature without public key"
  | Some _ =>
      c <- _combine kp msg ;;
      e <- sm3_sum (MArray c) ;;
      verifyDigest kp e r s
  end.

(** [signRaw(msg)] and [verifyRaw(msg, r, s)] *)
Definition signRaw (fuel : nat) (kp : KeyPair) (msg : message)
           (rng : drbg) (i : nat) : option (result (signature * nat)) :=
  match sm3_sum msg with
  | Throw e => Some (Throw e)
  | Ok e => signDigest_loop fuel kp e rng i
  end.

Definition verifyRaw (kp : KeyPair) (msg : message) (r s : string) : result bool :=
  e <- sm3_sum msg ;;
  verifyDigest kp e r s.

(** The [do ... while] loop of [genKeyPair]: the private key it hands
    to the constructor and the number of calls of the generator. *)
Fixpoint genKeyPair_loop (fuel : nat) (rng : drbg) (i : nat)
  : option (Z * nat) :=
  match fuel with
  | O => None
  | S fuel' =>
      let d := BN.of_dec (generate_hex rng i) in
      if d >? n - 2 then genKeyPair_loop fuel' rng (S i)
      else Some (d, S i)
  end.

(** [genKeyPair()] *)
Definition genKeyPair (fuel : nat) (rng : drbg) (i : nat)
  : option (result (KeyPair * nat)) :=
  match genKeyPair_loop fuel rng i with
  | None => None
  | Some (d, j) =>
      Some (kp <- create PubAbsent (PriBN d) ;; Ok (kp, j))
  end.

End SM2.

(** ** Notions used to state properties of the code *)

(** The two renderings of the registers [r] at the end of [sum]. *)
Definition render (enc : option string) (r : list Z) : digest :=
  if SM3.is_hex enc
  then DHex (fold_left (fun acc i => (acc ++ JS.toString16 (JS.get r i))%string)
                       (map Z.of_nat (seq 0 8)) "")
  else DBytes (flat_map (fun i => SM3.bytes_of_word (JS.get r i))
                        (map Z.of_nat (seq 0 8))).

Definition is_byte (x : Z) : Prop := 0 <= x < 256.

Definition is_word (x : Z) : Prop := 0 <= x < 2 ^ 32.

(** Eight 32-bit registers. *)
Definition is_state (r : list Z) : Prop :=
  List.length r = 8%nat /\ Forall is_word r.

(** The characters [0-9a-f] and the strings made of them. *)
Definition lower_hex (c : ascii) : bool :=
  let n := BN.code c in
  ((48 <=? n) && (n <=? 57)) || ((97 <=? n) && (n <=? 102)).

Fixpoint all_lower_hex (s : string) : bool :=
  match s with
  | EmptyString => true
  | String c s' => lower_hex c && all_lower_hex s'
  end.

(** A coordinate as the decoders and the encoders of public keys hand it
    to [_sm2Point]: an array of bytes or a non-empty string of hex
    digits. *)
Definition plain_coord (c : SM2.coord) : Prop :=
  match c with
  | SM2.CString s => s <> EmptyString /\ all_lower_hex s = true
  | SM2.CArray b => Forall is_byte b
  end.

Fixpoint zeros (k : nat) : string :=
  match k with
  | O => EmptyString
  | S k' => String "0" (zeros k')
  end.

(** ** The helper module beside sm_sm2.js (priToPub) *)

(** [String.prototype.padStart(k, '0')] *)
Definition padStart (s : string) (k : nat) : string :=
  (zeros (k - String.length s) ++ s)%string.

Definition hex_char (c : ascii) : bool :=
  let n := BN.code c in
  lower_hex c || ((65 <=? n) && (n <=? 70)).

(** [Buffer.from(s, 'hex')]: one byte for each pair of hex characters, up
    to the first pair that is not one. *)
Fixpoint buffer_from_hex (s : string) : list Z :=
  match s with
  | String c1 (String c2 s') =>
      if hex_char c1 && hex_char c2
      then (16 * BN.hex_val c1 + BN.hex_val c2) :: buffer_from_hex s'
      else []
  | _ => []
  end.

(** [priToPub(sm2KeyPair)] *)
Definition priToPub (kp : SM2.KeyPair) : result (list Z) :=
  P <- SM2.the_pub kp ;;
  x <- Curve.getX P ;;
  let x := BN.toString16 x 0 in
  y <- Curve.getY P ;;
  let y := BN.toString16 y 0 in
  let pubKeyHex := (x ++ y)%string in
  let pubKeyHex := if (String.length pubKeyHex =? 128)%nat then pubKeyHex
                   else padStart pubKeyHex 128 in
  Ok (buffer_from_hex pubKeyHex).

(** ** The helper module beside sm_sm2.js (signRS) *)

(** [String.prototype.substr(start, length)]; a negative [start] counts
    from the end of the string. *)
Definition substr (s : string) (start : Z) (length : nat) : string :=
  let n := SM2.slen s in
  let st := if start <? 0 then Z.max (n + start) 0 else Z.min start n in
  substring (Z.to_nat st) length s.

(** The signature and the public key as buffers. *)
Record signRS_result : Type :=
  mkRS { rs_r : list Z; rs_s : list Z; rs_pub : list Z }.

(** [signRS(sm2KeyPair, msg)], [msg] an array-like of bytes; the
    generator is threaded as in [sign]. *)
Definition signRS (fuel : nat) (kp : SM2.KeyPair) (msg : list Z)
           (rng : drbg) (i : nat) : option (result (signRS_result * nat)) :=
  match (P <- SM2.the_pub kp ;;
         x <- Curve.getX P ;; y <- Curve.getY P ;; Ok (x, y)) with
  | Throw e => Some (Throw e)
  | Ok (x, y) =>
      let x := BN.toString16 x 0 in
      let y := BN.toString16 y 0 in
      let pubKeyHex := (x ++ y)%string in
      let pubKeyHex := if (String.length pubKeyHex =? 128)%nat then pubKeyHex
                       else padStart pubKeyHex 128 in
      match SM2.sign fuel kp (MArray msg) rng i with
      | None => None
      | Some (Throw e) => Some (Throw e)
      | Some (Ok (signData, j)) =>
          let rHex := ("000000000000000000000" ++ SM2.sig_r signData)%string in
          let sHex := ("000000000000000000000" ++ SM2.sig_s signData)%string in
          let rHexLen := SM2.slen rHex - 64 in
          let sHexLen := SM2.slen sHex - 64 in
          let rHex := substr rHex rHexLen 64 in
          let sHex := substr sHex sHexLen 64 in
          Some (Ok (mkRS (buffer_from_hex rHex) (buffer_from_hex sHex)
                         (buffer_from_hex pubKeyHex), j))
      end
  end.

(* ================================================================= *)
(** * Facts about the SM3 engine *)

Section SM3Facts.

Import JS SM3.

Lemma len_app (a b : list Z) : len (a ++ b) = len a + len b.
Proof. unfold len. rewrite length_app. lia. Qed.

Lemma len_nonneg (a : list Z) : 0 <= len a.
Proof. unfold len. lia. Qed.

Lemma array_lt_long (m : list Z) : 2 <= len m -> array_lt m 64 = false.
Proof.
  destruct m as [|x [|y m]]; unfold len; simpl; intros H; lia || reflexivity.
Qed.

Lemma slice_range (a : list Z) (b e : Z) :
  0 <= b <= e -> e <= len a ->
  slice a b e = firstn (Z.to_nat (e - b)) (skipn (Z.to_nat b) a).
Proof.
  intros Hb He. unfold slice.
  destruct (Z.ltb_spec b 0); [lia|].
  destruct (Z.ltb_spec e 0); [lia|].
  rewrite !Z.min_l by lia. reflexivity.
Qed.

(** The 64 steps never leave the range of [_t], [_ff] and [_gg]. *)
Lemma step_ok (w r : list Z) (j : Z) :
  0 <= j < 64 -> exists r', step w r j = Ok r'.
Proof.
  intros Hj. unfold step, _t, _ff, _gg.
  assert (H0 : (0 <=? j) = true) by (apply Z.leb_le; lia).
  rewrite H0. cbn [andb].
  destruct (j <? 16) eqn:E16.
  - cbn [bind]. eexists. reflexivity.
  - assert (H1 : (16 <=? j) && (j <? 64) = true).
    { apply Z.ltb_ge in E16. apply andb_true_iff. split.
      - apply Z.leb_le; lia.
      - apply Z.ltb_lt; lia. }
    rewrite H1. cbn [bind]. eexists. reflexivity.
Qed.

Lemma steps_ok (w : list Z) (js : list Z) :
  Forall (fun j => 0 <= j < 64) js ->
  forall r, exists r', steps w r js = Ok r'.
Proof.
  unfold steps.
  induction 1 as [|j js Hj _ IH]; intros r; simpl.
  - eauto.
  - destruct (step_ok w r j Hj) as [r1 ->]. apply IH.
Qed.

Lemma rounds_in_range : Forall (fun j => 0 <= j < 64) rounds.
Proof.
  apply Forall_forall. intros j Hj.
  apply in_map_iff in Hj. destruct Hj as [k [<- Hk]].
  apply in_seq in Hk. lia.
Qed.

Lemma compress_ok (h : t) (m : list Z) :
  array_lt m 64 = false ->
  _compress h m = Ok (mk (compress_reg (reg h) m) (chunk h) (size h)).
Proof.
  intros Hm. unfold compress_reg, _compress. rewrite Hm.
  destruct (steps_ok (_expand m) _ rounds_in_range (reg h)) as [r' Hr].
  destruct (steps (_expand m) (reg h) rounds); [reflexivity | discriminate].
Qed.

(** *** The blocks absorbed by a sequence of writes *)

Lemma absorbs_rest r d r' rest : absorbs r d r' rest -> len rest < 64.
Proof. unfold absorbs. induction 1; assumption. Qed.

Lemma absorbs_short r d r' rest :
  absorbs r d r' rest -> len d < 64 -> r' = r /\ rest = d.
Proof.
  unfold absorbs. intros H Hd. inversion H; subst; auto.
  rewrite len_app in Hd. pose proof (len_nonneg d0). lia.
Qed.

Lemma absorbs_fun r d r1 rest1 :
  absorbs r d r1 rest1 ->
  forall r2 rest2, absorbs r d r2 rest2 -> r1 = r2 /\ rest1 = rest2.
Proof.
  unfold absorbs.
  induction 1 as [r d Hd | r b d r' rest Hb _ IH]; intros r2 rest2 H2.
  - destruct (absorbs_short _ _ _ _ H2 Hd); subst; auto.
  - inversion H2 as [? ? Hd | ? b' d' ? ? Hb' H' Heq]; subst.
    + rewrite len_app in Hd. pose proof (len_nonneg d). lia.
    + assert (Hlen : List.length b' = List.length b)
        by (unfold len in *; lia).
      assert (E : b' = b /\ d' = d).
      { match goal with H : b' ++ d' = b ++ d |- _ => rename H into Heq end.
        clear -Heq Hlen. revert b' Hlen Heq.
        induction b as [|x b IHb]; intros [|y b'] Hlen Heq;
          simpl in *; try discriminate; auto.
        injection Heq as -> Heq. injection Hlen as Hlen.
        destruct (IHb _ Hlen Heq) as [-> ->]. auto. }
      destruct E as [-> ->]. apply IH. assumption.
Qed.

Lemma absorbs_app r d r1 rest1 :
  absorbs r d r1 rest1 ->
  forall b r2 rest2,
    absorbs r1 (rest1 ++ b) r2 rest2 -> absorbs r (d ++ b) r2 rest2.
Proof.
  unfold absorbs.
  induction 1 as [r d Hd | r b0 d r' rest Hb _ IH]; intros b r2 rest2 H2.
  - assumption.
  - rewrite <- app_assoc. apply absorbs_block; auto.
Qed.

(** *** [write] absorbs the full blocks and keeps the tail *)

Lemma take_drop_block (s : list Z) (k : Z) :
  k = Z.min 64 (len s) ->
  firstn (Z.to_nat k) s ++ skipn 64 s = s.
Proof.
  intros ->. destruct (Z.le_gt_cases 64 (len s)) as [H|H].
  - rewrite Z.min_l by lia. change (Z.to_nat 64) with 64%nat.
    apply firstn_skipn.
  - rewrite Z.min_r by lia. unfold len in *.
    rewrite Nat2Z.id, firstn_all, skipn_all2 by lia. apply app_nil_r.
Qed.

Lemma write_loop_stop (fuel : nat) (m : list Z) (h : t) (i : Z) :
  len (chunk h) < 64 -> write_loop fuel m h i = Some (Ok h).
Proof.
  intros Hc. destruct fuel; cbn [write_loop];
    (destruct (Z.leb_spec 64 (len (chunk h))); [lia|]); reflexivity.
Qed.

Lemma write_loop_turn (fuel : nat) (m r c : list Z) (sz i : Z) :
  len c = 64 ->
  write_loop (S fuel) m (mk r c sz) i =
  write_loop fuel m
    (mk (compress_reg r c)
        (if i <? len m then slice m i (Z.min (i + 64) (len m)) else [])
        sz) (i + 64).
Proof.
  intros Hc. cbn [write_loop chunk].
  destruct (Z.leb_spec 64 (len c)); [|lia].
  rewrite compress_ok by (apply array_lt_long; cbn [chunk]; lia).
  reflexivity.
Qed.

Lemma write_loop_spec (m : list Z) :
  forall fuel r c sz i,
    0 <= i ->
    (len c = 64 /\ i <= len m) \/ (len c < 64 /\ len m <= i) ->
    len m - i < Z.of_nat fuel ->
    exists r' rest,
      write_loop fuel m (mk r c sz) i = Some (Ok (mk r' rest sz)) /\
      absorbs r (c ++ skipn (Z.to_nat i) m) r' rest.
Proof.
  assert (Hstop : forall fuel r c sz i,
    0 <= i -> len c < 64 -> len m <= i ->
    exists r' rest,
      write_loop fuel m (mk r c sz) i = Some (Ok (mk r' rest sz)) /\
      absorbs r (c ++ skipn (Z.to_nat i) m) r' rest).
  { intros fuel r c sz i Hi Hc Him. exists r, c. split.
    - apply write_loop_stop. exact Hc.
    - rewrite skipn_all2 by (unfold len in *; lia).
      rewrite app_nil_r. apply absorbs_done; assumption. }
  induction fuel as [|fuel IH]; intros r c sz i Hi Hinv Hfuel.
  - destruct Hinv as [[Hc Him]|[Hc Him]]; [lia|]. apply Hstop; assumption.
  - destruct Hinv as [[Hc Him]|[Hc Him]]; [|apply Hstop; assumption].
    rewrite write_loop_turn by exact Hc.
    set (s := skipn (Z.to_nat i) m).
    assert (Hs : len s = len m - i).
    { unfold s, len in *. rewrite length_skipn. lia. }
    set (c1 := if i <? len m then slice m i (Z.min (i + 64) (len m)) else []).
    assert (Hc' : c1 = firstn (Z.to_nat (Z.min 64 (len s))) s).
    { unfold c1. destruct (Z.ltb_spec i (len m)).
      - rewrite slice_range by lia. fold s. f_equal. lia.
      - replace (len s) with 0 by lia. reflexivity. }
    assert (Hlen : len c1 = Z.min 64 (len s)).
    { rewrite Hc'. unfold len in *. rewrite length_firstn. lia. }
    destruct (IH (compress_reg r c) c1 sz (i + 64))
      as [r' [rest [E A]]]; try lia.
    exists r', rest. split; [exact E|].
    apply absorbs_block; [assumption|].
    replace s with (c1 ++ skipn (Z.to_nat (i + 64)) m); [exact A|].
    replace (skipn (Z.to_nat (i + 64)) m) with (skipn 64 s).
    + rewrite Hc'. apply take_drop_block. reflexivity.
    + unfold s. rewrite skipn_skipn. f_equal. lia.
Qed.

Lemma write_spec (h : t) (msg : message) (m : list Z) :
  len (chunk h) < 64 -> bytes_of msg = Ok m ->
  exists r' rest,
    write h msg = Ok (mk r' rest (size h + len m)) /\
    absorbs (reg h) (chunk h ++ m) r' rest.
Proof.
  destruct h as [r c sz]. cbn [reg chunk size].
  intros Hc Hm. unfold write, write_fuel, turns. rewrite Hm.
  cbn [reg chunk size].
  destruct (Z.ltb_spec (len m) (64 - len c)) as [Hlt|Hge].
  - exists r, (c ++ m). split; [reflexivity|].
    apply absorbs_done. rewrite len_app. lia.
  - pose proof (len_nonneg c) as Hn.
    set (i := 64 - len c) in *.
    assert (Hsl : slice m 0 i = firstn (Z.to_nat i) m).
    { rewrite slice_range by lia. rewrite Z.sub_0_r. reflexivity. }
    destruct (write_loop_spec m
                (S (List.length c + List.length m))
                r (c ++ slice m 0 i) (sz + len m) i)
      as [r' [rest [E A]]].
    + lia.
    + left. split; [|lia]. rewrite len_app, Hsl. unfold len in *.
      rewrite length_firstn. lia.
    + unfold len in *. lia.
    + exists r', rest. rewrite E. split; [reflexivity|].
      rewrite Hsl, <- app_assoc, firstn_skipn in A. exact A.
Qed.

Lemma writes_spec (parts : list message) (bs : list (list Z)) :
  Forall2 (fun p b => bytes_of p = Ok b) parts bs ->
  forall h, len (chunk h) < 64 ->
  exists r' rest,
    writes h parts = Ok (mk r' rest (size h + len (List.concat bs))) /\
    absorbs (reg h) (chunk h ++ List.concat bs) r' rest.
Proof.
  induction 1 as [|p b parts bs Hp _ IH]; intros h Hc.
  - destruct h as [r c sz]. cbn [reg chunk size List.concat] in *.
    exists r, c. unfold writes. cbn [fold_left].
    replace (sz + len []) with sz by (unfold len; simpl; lia).
    split; [reflexivity|]. rewrite app_nil_r. apply absorbs_done. exact Hc.
  - destruct (write_spec h p b Hc Hp) as [r1 [rest1 [E1 A1]]].
    pose proof (absorbs_rest _ _ _ _ A1) as Hrest.
    destruct (IH (mk r1 rest1 (size h + len b)) Hrest)
      as [r2 [rest2 [E2 A2]]].
    cbn [reg chunk size] in E2, A2.
    exists r2, rest2. split.
    + unfold writes in *. cbn [fold_left bind]. rewrite E1.
      rewrite E2. cbn [List.concat]. rewrite len_app. f_equal. f_equal. lia.
    + cbn [List.concat]. rewrite app_assoc.
      apply (absorbs_app _ _ _ _ A1). exact A2.
Qed.

(** *** [sum] always returns, and leaves the engine reset *)

Lemma fill_length (h : t) :
  exists k, 0 < k /\ len (chunk (_fill h)) = 64 * k.
Proof.
  unfold _fill. cbn [chunk]. unfold len.
  rewrite !length_app, repeat_length, !length_map. cbn [List.length].
  set (L := Z.of_nat (List.length (chunk h) + 1)).
  assert (HL : 0 < L) by (unfold L; lia).
  pose proof (Z.mod_pos_bound L 64 ltac:(lia)) as Hm.
  pose proof (Z.div_mod L 64 ltac:(lia)) as Hd.
  assert (0 <= L / 64) by (apply Z.div_pos; lia).
  destruct (Z.ltb_spec (64 - L mod 64) 8).
  - exists (L / 64 + 2). split; [lia|]. fold L. lia.
  - exists (L / 64 + 1). split; [lia|]. fold L. lia.
Qed.

Lemma blocks_ok (c : list Z) (k : Z) :
  len c = 64 * k ->
  Forall (fun b => array_lt b 64 = false)
    (map (fun j => slice c (64 * Z.of_nat j) (64 * Z.of_nat j + 64))
         (seq 0 (Z.to_nat ((len c + 63) / 64)))).
Proof.
  intros Hk. apply Forall_forall. intros b Hb.
  apply in_map_iff in Hb. destruct Hb as [j [<- Hj]].
  apply in_seq in Hj.
  assert (Hdiv : (len c + 63) / 64 = k).
  { symmetry. apply (Z.div_unique _ 64 k 63); lia. }
  rewrite Hdiv in Hj.
  apply array_lt_long. rewrite slice_range by lia.
  unfold len in *. rewrite length_firstn, length_skipn. lia.
Qed.

Lemma compress_all_ok (bs : list (list Z)) :
  Forall (fun b => array_lt b 64 = false) bs ->
  forall h, exists r',
    fold_left (fun acc b => h <- acc ;; _compress h b) bs (Ok h)
    = Ok (mk r' (chunk h) (size h)).
Proof.
  induction 1 as [|b bs Hb _ IH]; intros h.
  - exists (reg h). destruct h; reflexivity.
  - cbn [fold_left bind]. rewrite (compress_ok h b Hb).
    destruct (IH (mk (compress_reg (reg h) b) (chunk h) (size h)))
      as [r' E].
    exists r'. exact E.
Qed.

Lemma sum_falsy_ok (h : t) (msg : message) (enc : option string) :
  truthy msg = false ->
  exists d, sum h msg enc = Ok (d, create).
Proof.
  intros Hf. unfold sum. rewrite Hf. cbn [bind].
  destruct (fill_length h) as [k [Hk Hlen]].
  destruct (compress_all_ok _ (blocks_ok _ k Hlen) (_fill h)) as [r' E].
  rewrite E. cbn [bind]. eexists. reflexivity.
Qed.

Lemma truthy_bytes (msg : message) :
  truthy msg = true -> exists m, bytes_of msg = Ok m.
Proof.
  destruct msg as [|s|b]; cbn [truthy bytes_of]; intros H.
  - discriminate.
  - eauto.
  - eauto.
Qed.

Lemma sum_unfold_truthy (h : t) (msg : message) (enc : option string) :
  truthy msg = true ->
  sum h msg enc = (h1 <- write (reset h) msg ;; sum h1 MUndefined enc).
Proof.
  intros Ht. unfold sum. rewrite Ht. cbn [truthy].
  destruct (write (reset h) msg); reflexivity.
Qed.

Lemma sum_total (h : t) (msg : message) (enc : option string) :
  exists d, sum h msg enc = Ok (d, create).
Proof.
  destruct (truthy msg) eqn:Ht.
  - rewrite sum_unfold_truthy by exact Ht.
    destruct (truthy_bytes msg Ht) as [m Hm].
    destruct (write_spec (reset h) msg m) as [r' [rest [E _]]];
      [unfold len; simpl; lia | exact Hm |].
    rewrite E. cbn [bind]. apply sum_falsy_ok. reflexivity.
  - apply sum_falsy_ok. exact Ht.
Qed.

End SM3Facts.

(* ================================================================= *)
(** * The SM3 engine against its specification *)

Section SM3Claims.

Import JS SM3.

(** C4: [sum] of the three-byte message "abc" on a fresh engine is the
    32 bytes 66c7f0f4 62eeedd9 d1f2d46b dc10e4e2 4167c487 5cf2f7a2
    297da02b 8f4ba8e0; [sm3Digest] renders them as that lowercase hex
    string. *)
Theorem sum_abc :
  sum create (MString "abc") None =
    Ok (DBytes [0x66; 0xc7; 0xf0; 0xf4; 0x62; 0xee; 0xed; 0xd9;
                0xd1; 0xf2; 0xd4; 0x6b; 0xdc; 0x10; 0xe4; 0xe2;
                0x41; 0x67; 0xc4; 0x87; 0x5c; 0xf2; 0xf7; 0xa2;
                0x29; 0x7d; 0xa0; 0x2b; 0x8f; 0x4b; 0xa8; 0xe0], create)
  /\ sm3Digest (strToBytes "abc") =
    Ok "66c7f0f462eeedd9d1f2d46bdc10e4e24167c4875cf2f7a2297da02b8f4ba8e0".
Proof. split; vm_compute; reflexivity. Qed.

(** C5: writing the parts of a message one after the other on a fresh
    engine and then calling [sum()] gives what [sum(msg)] gives for the
    whole message on a fresh engine, and that call returns a digest. *)
Theorem sum_streaming (parts : list message) (bs : list (list Z))
        (msg : message) (enc : option string) :
  Forall2 (fun p b => bytes_of p = Ok b) parts bs ->
  bytes_of msg = Ok (List.concat bs) ->
  (h <- writes create parts ;; sum h MUndefined enc) = sum create msg enc
  /\ exists d, sum create msg enc = Ok (d, create).
Proof.
  intros Hparts Hmsg. split; [|apply sum_total].
  destruct (writes_spec parts bs Hparts create) as [r1 [rest1 [E1 A1]]];
    [unfold len; simpl; lia|].
  rewrite E1. cbn [bind]. cbn [reg chunk size create reset app] in *.
  destruct (truthy msg) eqn:Ht.
  - rewrite (sum_unfold_truthy create msg enc Ht).
    destruct (write_spec (reset create) msg _ ltac:(unfold len; simpl; lia) Hmsg)
      as [r2 [rest2 [E2 A2]]].
    rewrite E2. cbn [bind]. cbn [reg chunk size create reset app] in *.
    destruct (absorbs_fun _ _ _ _ A1 _ _ A2) as [-> ->]. reflexivity.
  - assert (Hnil : List.concat bs = []).
    { destruct msg as [|s|b]; cbn [truthy bytes_of] in *; try discriminate.
      destruct s; [|discriminate]. injection Hmsg as <-. reflexivity. }
    rewrite Hnil in *.
    destruct (absorbs_short _ _ _ _ A1) as [-> ->];
      [unfold len; simpl; lia|].
    unfold sum. rewrite Ht. reflexivity.
Qed.

Lemma sum_streaming_witness :
  Forall2 (fun p b => bytes_of p = Ok b)
          [MString "ab"; MArray [99]] [[97; 98]; [99]] /\
  bytes_of (MString "abc") = Ok (List.concat [[97; 98]; [99]]) /\
  (h <- writes create [MString "ab"; MArray [99]] ;; sum h MUndefined None)
  = sum create (MString "abc") None.
Proof.
  assert (H1 : Forall2 (fun p b => bytes_of p = Ok b)
                       [MString "ab"; MArray [99]] [[97; 98]; [99]]).
  { repeat constructor. }
  assert (H2 : bytes_of (MString "abc") = Ok (List.concat [[97; 98]; [99]])).
  { reflexivity. }
  split; [exact H1|]. split; [exact H2|].
  exact (proj1 (sum_streaming _ _ _ None H1 H2)).
Defined.

(** C6, at the empty string: after [write("abc")], [sum("")] does not
    reset the engine first and returns the digest of "abc", whereas
    [reset(); write(""); sum()] returns the digest of the empty
    message. *)
Theorem sum_empty_string_keeps_buffer :
  let h := mk iv [97; 98; 99] 3 in
  let abc := [0x66; 0xc7; 0xf0; 0xf4; 0x62; 0xee; 0xed; 0xd9;
              0xd1; 0xf2; 0xd4; 0x6b; 0xdc; 0x10; 0xe4; 0xe2;
              0x41; 0x67; 0xc4; 0x87; 0x5c; 0xf2; 0xf7; 0xa2;
              0x29; 0x7d; 0xa0; 0x2b; 0x8f; 0x4b; 0xa8; 0xe0] in
  let empty := [0x1a; 0xb2; 0x1d; 0x83; 0x55; 0xcf; 0xa1; 0x7f;
                0x8e; 0x61; 0x19; 0x48; 0x31; 0xe8; 0x1a; 0x8f;
                0x22; 0xbe; 0xc8; 0xc7; 0x28; 0xfe; 0xfb; 0x74;
                0x7e; 0xd0; 0x35; 0xeb; 0x50; 0x82; 0xaa; 0x2b] in
  write create (MString "abc") = Ok h /\
  sum h (MString "") None = Ok (DBytes abc, create) /\
  (h1 <- write (reset h) (MString "") ;; sum h1 MUndefined None)
    = Ok (DBytes empty, create) /\
  abc <> empty.
Proof.
  cbv zeta. repeat split; try (vm_compute; reflexivity). discriminate.
Qed.

(** C10, at the message "a": the hex output drops the leading zero of
    the register 09e43c7f and has 63 characters, while the 32 bytes of
    the default output render as 64 characters. *)
Theorem sum_hex_drops_leading_zero :
  sum create (MString "a") (Some "hex") =
    Ok (DHex "623476ac18f65a299e43c7fec61b49c7e764a91a18ccb82f1917a29c86c5e88",
        create) /\
  sm3Digest (strToBytes "a") =
    Ok "623476ac18f65a2909e43c7fec61b49c7e764a91a18ccb82f1917a29c86c5e88".
Proof. split; vm_compute; reflexivity. Qed.

End SM3Claims.

(* ================================================================= *)
(** * Facts about bn.js values *)

Section BNFacts.

Lemma be_bytes_length (k : nat) (v : Z) : List.length (BN.be_bytes k v) = k.
Proof.
  revert v. induction k as [|k IH]; intros v; cbn [BN.be_bytes].
  - reflexivity.
  - rewrite length_app, IH. simpl. lia.
Qed.

Lemma byteLength_nonneg (v : Z) : 0 <= BN.byteLength v.
Proof.
  unfold BN.byteLength. destruct (v =? 0); [lia|].
  pose proof (Z.log2_nonneg (Z.abs v)).
  apply Z.div_pos; lia.
Qed.

(** A value below [2^(8 k)] needs at most [k] bytes. *)
Lemma byteLength_bound (v k : Z) :
  0 < k -> 0 <= v < 2 ^ (8 * k) -> BN.byteLength v <= k.
Proof.
  intros Hk Hv. unfold BN.byteLength.
  destruct (Z.eqb_spec v 0); [lia|].
  rewrite Z.abs_eq by lia.
  assert (Hlog : Z.log2 v < 8 * k) by (apply Z.log2_lt_pow2; lia).
  assert ((Z.log2 v + 8) / 8 < k + 1); [|lia].
  apply Z.div_lt_upper_bound; lia.
Qed.

(** [toArray()] without a length never throws; the array has as many
    bytes as the value needs, and one byte for zero. *)
Lemma toArray_default (v : Z) :
  exists l, BN.toArray v 0 = Ok l /\
            JS.len l = Z.max 1 (BN.byteLength v).
Proof.
  unfold BN.toArray. cbn [Z.eqb].
  destruct (Z.ltb_spec (Z.max 1 (BN.byteLength v)) (BN.byteLength v)); [lia|].
  eexists. split; [reflexivity|].
  unfold JS.len. rewrite be_bytes_length. lia.
Qed.

End BNFacts.

(* ================================================================= *)
(** * Facts about the scalar multiplication *)

Section CurveFacts.

Import Curve.

Lemma naf_sum_zero (len : nat) : naf_sum len 0 = 0.
Proof.
  induction len as [|len IH]; [reflexivity|].
  cbn [naf_sum]. change (Z.odd 0) with false. cbv zeta iota.
  change (Z.quot (0 - 0) 2) with 0. rewrite IH. reflexivity.
Qed.

(** One turn of the loop of [getNAF] on [k >= 0]: the digit and the
    next value give back [k], and the next value is about half of it. *)
Lemma naf_step (k : Z) :
  0 <= k ->
  let md := Z.land (Z.abs k) 31 in
  let z := if Z.odd k then (if 15 <? md then 16 - md else md) else 0 in
  z + 2 * Z.quot (k - z) 2 = k /\ 0 <= Z.quot (k - z) 2 /\
  forall M, 1 <= M -> k <= 32 * M + 7 -> Z.quot (k - z) 2 <= 16 * M + 7.
Proof.
  intros Hk. cbv zeta. rewrite Z.abs_eq by exact Hk.
  change 31 with (Z.ones 5). rewrite Z.land_ones by lia.
  change (2 ^ 5) with 32.
  pose proof (Zmod_odd k) as Hodd.
  destruct (Z.odd k).
  - destruct (Z.ltb_spec 15 (k mod 32)) as [Hm|Hm].
    + assert (H0 : 0 <= k - (16 - k mod 32))
        by (Z.to_euclidean_division_equations; lia).
      rewrite Z.quot_div_nonneg by lia.
      repeat split; try intros M HM HkM;
        Z.to_euclidean_division_equations; lia.
    + assert (H0 : 0 <= k - k mod 32)
        by (Z.to_euclidean_division_equations; lia).
      rewrite Z.quot_div_nonneg by lia.
      repeat split; try intros M HM HkM;
        Z.to_euclidean_division_equations; lia.
  - rewrite Z.sub_0_r. rewrite Z.quot_div_nonneg by lia.
    repeat split; try intros M HM HkM;
      Z.to_euclidean_division_equations; lia.
Qed.

Lemma naf_sum_small :
  forall k, 0 <= k <= 23 -> naf_sum 5 k = k.
Proof.
  assert (Hall : forallb (fun i => naf_sum 5 (Z.of_nat i) =? Z.of_nat i)
                         (seq 0 24) = true) by (vm_compute; reflexivity).
  intros k Hk. rewrite forallb_forall in Hall.
  specialize (Hall (Z.to_nat k)).
  rewrite Z2Nat.id in Hall by lia. apply Z.eqb_eq. apply Hall.
  apply in_seq. lia.
Qed.

Lemma naf_sum_exact (len : nat) :
  forall k, 0 <= k -> k <= 2 ^ (Z.of_nat len + 4) + 7 ->
  naf_sum (len + 5) k = k.
Proof.
  induction len as [|len IH]; intros k Hk Hb.
  - apply naf_sum_small. change (2 ^ (Z.of_nat 0 + 4)) with 16 in Hb. lia.
  - change (S len + 5)%nat with (S (len + 5)). cbn [naf_sum].
    destruct (naf_step k Hk) as [Hz [Hq HM]]. cbv zeta in Hz, Hq, HM.
    assert (HM1 : 1 <= 2 ^ Z.of_nat len)
      by (pose proof (Z.pow_pos_nonneg 2 (Z.of_nat len)); lia).
    assert (E32 : 2 ^ (Z.of_nat (S len) + 4) = 32 * 2 ^ Z.of_nat len).
    { rewrite Nat2Z.inj_succ.
      replace (Z.succ (Z.of_nat len) + 4) with (Z.of_nat len + 5) by lia.
      rewrite Z.pow_add_r by lia. change (2 ^ 5) with 32. lia. }
    assert (E16 : 2 ^ (Z.of_nat len + 4) = 16 * 2 ^ Z.of_nat len).
    { rewrite Z.pow_add_r by lia. change (2 ^ 4) with 16. lia. }
    rewrite IH; [exact Hz | exact Hq |].
    rewrite E16. apply HM; [exact HM1 | lia].
Qed.

Lemma bitLength_spec (k : Z) : 0 <= k -> k < 2 ^ BN.bitLength k.
Proof.
  intros Hk. unfold BN.bitLength.
  destruct (Z.eqb_spec k 0) as [->|Hnz]; [reflexivity|].
  rewrite Z.abs_eq by exact Hk.
  replace (Z.log2 k + 1) with (Z.succ (Z.log2 k)) by lia.
  apply Z.log2_spec. lia.
Qed.

(** For a scalar that is not negative the digits of [getNAF] add up to
    the scalar: the loop has reached 0 when the digits run out. *)
Lemma naf_sum_nonneg (k : Z) : 0 <= k -> naf_sum (naf_len k) k = k.
Proof.
  intros Hk. unfold naf_len.
  set (L := Z.max (BN.bitLength k) 256).
  assert (HL : 256 <= L) by (unfold L; lia).
  replace (Z.to_nat (L + 1)) with (Z.to_nat (L - 4) + 5)%nat by lia.
  apply naf_sum_exact; [exact Hk|].
  rewrite Z2Nat.id by lia.
  replace (L - 4 + 4) with L by lia.
  pose proof (bitLength_spec k Hk) as Hlt.
  assert (Hle : 2 ^ BN.bitLength k <= 2 ^ L).
  { apply Z.pow_le_mono_r; [lia|]. unfold L. lia. }
  lia.
Qed.

Lemma mul_int_nonneg (P : point) (v : Z) : 0 <= v -> mul_int P v = mul P v.
Proof.
  destruct v as [|v'|v']; intros Hv; try reflexivity.
  exfalso. apply Hv. reflexivity.
Qed.

(** [mul] adds the multiples of the point that the digits of [getNAF]
    select, whatever the sign of the scalar. *)
Lemma mul_wnaf (P : point) (k : Z) :
  mul P k = mul_int P (naf_sum (naf_len k) k).
Proof.
  destruct k as [|k'|k'].
  - rewrite naf_sum_nonneg by lia. reflexivity.
  - rewrite naf_sum_nonneg by lia. reflexivity.
  - reflexivity.
Qed.

(** For the scalar -1 every digit is 1: [mul] returns the multiple
    [2^257 - 1] of the point. *)
Lemma mul_minus_one (P : point) : mul P (-1) = mul P (2 ^ 257 - 1).
Proof.
  rewrite (mul_wnaf P (-1)).
  assert (E : naf_sum (naf_len (-1)) (-1) = 2 ^ 257 - 1)
    by (vm_compute; reflexivity).
  rewrite E. apply mul_int_nonneg. vm_compute. discriminate.
Qed.

End CurveFacts.

(* ================================================================= *)
(** * SM2 key pairs against their specification *)

Section SM2Claims.

Import Curve SM2.

(** [verifyDigest] turns away any [r] or [s] that is not below [n]. *)
Lemma verifyDigest_upper (kp : KeyPair) (digest : list Z) (r s : string) :
  n <= BN.of_hex r \/ n <= BN.of_hex s ->
  verifyDigest kp digest r s = Ok false.
Proof.
  intros H. unfold verifyDigest.
  destruct (Z.geb_spec (BN.of_hex r) n) as [Hr|Hr]; [reflexivity|].
  destruct (Z.geb_spec (BN.of_hex s) n) as [Hs|Hs]; [reflexivity|].
  lia.
Qed.

(** C1, at [r = 0] and at [s = 0]: for the key pair of private key 1
    (public key [G]) there are digests for which [verifyDigest] accepts
    the pair ("0", "1") and the pair ("1", "0"), although 0 is outside
    [1, n-1]. *)
Theorem verifyDigest_accepts_zero :
  let kp := mkKeyPair (Some g) (Some 1) in
  let e1 := [169; 49; 2; 158; 40; 55; 131; 255; 242; 167; 16; 168; 5; 140;
             69; 177; 213; 245; 229; 98; 97; 59; 145; 250; 10; 95; 197;
             235; 149; 226; 131; 209] in
  let e2 := [205; 59; 81; 210; 224; 230; 126; 230; 160; 102; 251; 185; 149;
             198; 54; 106; 226; 32; 211; 171; 47; 95; 249; 73; 226; 97;
             174; 128; 6; 136; 204; 93] in
  create (PubPoint gx gy) (PriBN 1) = Ok kp /\
  mul g 1 = g /\
  BN.of_hex "0" = 0 /\
  verifyDigest kp e1 "0" "1" = Ok true /\
  verifyDigest kp e2 "1" "0" = Ok true.
Proof. cbv zeta. repeat split; vm_compute; reflexivity. Qed.

(** C2, at a draw whose bytes are 00 .. 00 10: the candidate private
    key is 10, the value of the hex text "00..0010" read in base ten,
    and not 16, the big-endian value of the bytes. *)
Theorem genKeyPair_reads_base_ten :
  let rng : drbg := fun _ => repeat 0 31 ++ [16] in
  BN.of_bytes (rng 0%nat) = 16 /\
  genKeyPair_loop 1 rng 0 = Some (10, 1%nat) /\
  genKeyPair 1 rng 0 =
    Some (kp <- create PubAbsent (PriBN 10) ;; Ok (kp, 1%nat)).
Proof.
  cbv zeta. split; [vm_compute; reflexivity|].
  assert (H : genKeyPair_loop 1 (fun _ => repeat 0 31 ++ [16]) 0
              = Some (10, 1%nat)) by (vm_compute; reflexivity).
  split; [exact H|]. unfold genKeyPair. rewrite H. reflexivity.
Qed.

(** C3, at a draw of 32 zero bytes: the nonce is [k = 0], [[k]G] is the
    point at infinity and reading its abscissa throws. *)
Theorem signDigest_zero_nonce (fuel : nat) (kp : KeyPair) (digest : list Z)
        (i : nat) :
  let rng : drbg := fun _ => repeat 0 32 in
  BN.of_hex (generate_hex rng i) mod n = 0 /\
  mul g 0 = Inf /\
  signDigest_loop (S fuel) kp digest rng i =
    Some (Throw "TypeError: Cannot read properties of null (reading 'fromRed')").
Proof.
  cbv zeta.
  assert (H : BN.of_hex (generate_hex (fun _ => repeat 0 32) i) mod n = 0)
    by (vm_compute; reflexivity).
  split; [exact H|]. split; [reflexivity|].
  cbn [signDigest_loop]. rewrite H. reflexivity.
Qed.

(** C7, at the point [(0, y)] of the curve: [pubToString] renders the
    abscissa with 32 hex characters instead of 64, and the decoder
    rejects the string in each of the three modes; the bytes of
    [pubToBytes] decode to the point. *)
Theorem pubToString_short_abscissa :
  let P := Aff 0 y_at_0 in
  let kp := mkKeyPair (Some P) None in
  Curve.validate P = true /\
  pubToString kp (Some "nocompress") =
    Ok "0400000000000000000000000000000000fd4511e81736a60f07e88a83d6cf5a167fae6d1a9c9330e76e232e00f5cdc154" /\
  (s <- pubToString kp (Some "nocompress") ;; _pubFromString s)
    = Throw "invalid key string" /\
  (s <- pubToString kp (Some "mix") ;; _pubFromString s)
    = Throw "invalid key string" /\
  (s <- pubToString kp (Some "compress") ;; _pubFromString s)
    = Throw "invalid key string" /\
  (b <- pubToBytes kp (Some "nocompress") ;; _pubFromBytes b) = Ok P.
Proof. cbv zeta. repeat split; vm_compute; reflexivity. Qed.

(** C8, for every public key one of whose coordinates has a leading zero
    byte: the array hashed into [Z_A] is shorter than the 18 bytes of the
    preamble followed by six fields of 32 bytes, because [toArray()]
    drops the leading zero bytes of a coordinate. *)
Theorem za_input_drops_leading_zeros (kp : KeyPair) (x y : Z) :
  pub kp = Some (Aff x y) ->
  0 <= x < 2 ^ 256 -> 0 <= y < 2 ^ 256 ->
  x < 2 ^ 248 \/ y < 2 ^ 248 ->
  exists l, za_input kp = Ok l /\ JS.len l < 18 + 6 * 32.
Proof.
  intros Hpub Hx Hy Hsmall. unfold za_input, the_pub. rewrite Hpub.
  cbn [getX getY g bind].
  destruct (toArray_default a) as [la [-> Ha]].
  destruct (toArray_default b) as [lb [-> Hb]].
  destruct (toArray_default gx) as [lgx [-> Hgx]].
  destruct (toArray_default gy) as [lgy [-> Hgy]].
  destruct (toArray_default x) as [lx [-> Hlx]].
  destruct (toArray_default y) as [ly [-> Hly]].
  cbn [bind]. eexists. split; [reflexivity|].
  rewrite !len_app.
  change (JS.len preamble) with 18.
  change (BN.byteLength a) with 32 in Ha.
  change (BN.byteLength b) with 32 in Hb.
  change (BN.byteLength gx) with 32 in Hgx.
  change (BN.byteLength gy) with 32 in Hgy.
  pose proof (byteLength_bound x 32 ltac:(lia) ltac:(simpl; lia)).
  pose proof (byteLength_bound y 32 ltac:(lia) ltac:(simpl; lia)).
  destruct Hsmall as [Hs|Hs].
  - pose proof (byteLength_bound x 31 ltac:(lia) ltac:(simpl; lia)). lia.
  - pose proof (byteLength_bound y 31 ltac:(lia) ltac:(simpl; lia)). lia.
Qed.

Lemma za_input_drops_leading_zeros_witness :
  exists l, za_input (mkKeyPair (Some pub_107) (Some 107)) = Ok l /\
            JS.len l < 18 + 6 * 32.
Proof.
  apply (za_input_drops_leading_zeros
           (mkKeyPair (Some pub_107) (Some 107)) x_107 y_107 eq_refl).
  - vm_compute. split; [discriminate | reflexivity].
  - vm_compute. split; [discriminate | reflexivity].
  - right. vm_compute. reflexivity.
Defined.

Lemma read_pub_flag (a : pub_arg) (op : option point) :
  read_pub a = Ok (op, true) -> exists x y, a = PubPoint x y.
Proof.
  destruct a as [|s|bs|x y|]; cbn [read_pub]; intros H.
  - discriminate.
  - destruct s; [discriminate|].
    destruct (_pubFromString _); cbn [bind] in H; discriminate.
  - destruct (_pubFromBytes _); cbn [bind] in H; discriminate.
  - eauto.
  - discriminate.
Qed.

Lemma read_pri_flag (b0 : pri_arg) (od : option Z) :
  read_pri b0 = Ok (od, true) -> exists d, b0 = PriBN d.
Proof.
  destruct b0 as [|s|d|]; cbn [read_pri]; intros H.
  - discriminate.
  - destruct s; discriminate.
  - eauto.
  - discriminate.
Qed.

(** What a successful [validate()] establishes. *)
Lemma validate_true (kp : KeyPair) :
  validate kp = true ->
  (forall P, pub kp = Some P ->
     P <> Inf /\ Curve.validate P = true /\ mul P n = Inf) /\
  (forall d, pri kp = Some d ->
     d <= n - 2 /\
     forall P, pub kp = Some P -> Curve.eq P (mul g d) = true).
Proof.
  unfold validate. destruct kp as [[P|] [d|]]; cbn [pub pri].
  - destruct (isInfinity P) eqn:HI; [discriminate|].
    destruct (Curve.validate P) eqn:HV; cbn [negb]; [|discriminate].
    destruct (isInfinity (mul P n)) eqn:HN; cbn [negb]; [|discriminate].
    destruct (Z.gtb_spec d (n - 2)); [discriminate|].
    destruct (Curve.eq P (mul g d)) eqn:HE; cbn [negb]; [|discriminate].
    intros _. split.
    + intros Q [= <-]. split; [|split].
      * intros ->. discriminate.
      * exact HV.
      * destruct (mul P n); [reflexivity|discriminate].
    + intros d' [= <-]. split; [lia|]. intros Q [= <-]. exact HE.
  - destruct (isInfinity P) eqn:HI; [discriminate|].
    destruct (Curve.validate P) eqn:HV; cbn [negb]; [|discriminate].
    destruct (isInfinity (mul P n)) eqn:HN; cbn [negb]; [|discriminate].
    intros _. split.
    + intros Q [= <-]. split; [|split].
      * intros ->. discriminate.
      * exact HV.
      * destruct (mul P n); [reflexivity|discriminate].
    + intros d' [=].
  - destruct (Z.gtb_spec d (n - 2)); [discriminate|].
    intros _. split.
    + intros Q [=].
    + intros d' [= <-]. split; [lia|]. intros Q [=].
  - intros _. split; intros ? [=].
Qed.

(** Unless the public key is a point object and the private key a big
    integer at once, a key pair that the constructor returns has passed
    [validate()]: its public key is a point of the curve other than
    infinity that [n] sends to infinity, its private key is at most
    [n - 2], and the public key is [G.mul(pri)]. *)
Lemma create_returns_validated (a0 : pub_arg) (b0 : pri_arg) (kp : KeyPair) :
  (forall x y d, ~ (a0 = PubPoint x y /\ b0 = PriBN d)) ->
  create a0 b0 = Ok kp ->
  (forall P, pub kp = Some P ->
     P <> Inf /\ Curve.validate P = true /\ mul P n = Inf) /\
  (forall d, pri kp = Some d ->
     d <= n - 2 /\
     forall P, pub kp = Some P -> Curve.eq P (mul g d) = true).
Proof.
  intros Hnat Hc. apply validate_true. unfold create in Hc.
  destruct (read_pub a0) as [[op vp]|e] eqn:Ep; cbn [bind] in Hc;
    [|discriminate].
  destruct (read_pri b0) as [[od vd]|e] eqn:Ed; cbn [bind] in Hc;
    [|discriminate].
  cbn [fst snd] in Hc.
  assert (Hflags : vp && vd = false).
  { destruct vp; [|reflexivity]. destruct vd; [|reflexivity].
    destruct (read_pub_flag _ _ Ep) as [x [y Ha]].
    destruct (read_pri_flag _ _ Ed) as [d Hb].
    exfalso. apply (Hnat x y d). split; assumption. }
  rewrite Hflags in Hc. cbn [negb] in Hc.
  destruct vp; [discriminate|].
  match type of Hc with
  | (if negb (validate ?k) then _ else _) = _ =>
      destruct (validate k) eqn:Hv; cbn [negb] in Hc; [|discriminate]
  end.
  injection Hc as <-. exact Hv.
Qed.





End SM2Claims.

(* ================================================================= *)
(** * Further properties of the SM3 engine *)

Section SM3Properties.

Import JS SM3.

(** [write] keeps the buffer shorter than one block and counts the bytes
    it is given, as long as the count stays an integer that a number
    holds exactly. *)
Theorem write_keeps_buffer_short (h : t) (msg : message) (m : list Z) :
  len (chunk h) < 64 -> bytes_of msg = Ok m ->
  0 <= size h -> size h + len m <= max_exact ->
  exists h', write h msg = Ok h' /\
             len (chunk h') < 64 /\ size h' = size h + len m.
Proof.
  intros Hc Hm _ _.
  destruct (write_spec h msg m Hc Hm) as [r' [rest [E A]]].
  exists (mk r' rest (size h + len m)). split; [exact E|].
  split; [|reflexivity]. exact (absorbs_rest _ _ _ _ A).
Qed.

Lemma write_keeps_buffer_short_witness :
  exists h', write create (MString "abc") = Ok h' /\
             len (chunk h') < 64 /\ size h' = size create + len [97; 98; 99].
Proof.
  apply (write_keeps_buffer_short create (MString "abc") [97; 98; 99]).
  - vm_compute. reflexivity.
  - reflexivity.
  - vm_compute. discriminate.
  - vm_compute. discriminate.
Defined.

(** Two writes in a row leave the engine as one write of the two arrays
    joined, as long as the count of bytes stays an integer that a number
    holds exactly. *)
Theorem write_append (h : t) (a b : list Z) :
  len (chunk h) < 64 ->
  0 <= size h -> size h + len a + len b <= max_exact ->
  (h1 <- write h (MArray a) ;; write h1 (MArray b)) = write h (MArray (a ++ b)).
Proof.
  intros Hc _ _.
  destruct (write_spec h (MArray a) a Hc eq_refl) as [r1 [rest1 [E1 A1]]].
  pose proof (absorbs_rest _ _ _ _ A1) as Hrest.
  destruct (write_spec (mk r1 rest1 (size h + len a)) (MArray b) b Hrest eq_refl)
    as [r2 [rest2 [E2 A2]]].
  destruct (write_spec h (MArray (a ++ b)) (a ++ b) Hc eq_refl)
    as [r3 [rest3 [E3 A3]]].
  rewrite E1. cbn [bind]. rewrite E2, E3. cbn [reg chunk size] in *.
  pose proof (absorbs_app _ _ _ _ A1 _ _ _ A2) as A12.
  rewrite <- app_assoc in A12.
  destruct (absorbs_fun _ _ _ _ A12 _ _ A3) as [-> ->].
  rewrite len_app. f_equal. f_equal. lia.
Qed.

Lemma write_append_witness :
  (h1 <- write create (MArray [1; 2]) ;; write h1 (MArray [3]))
  = write create (MArray ([1; 2] ++ [3])).
Proof.
  apply write_append.
  - vm_compute. reflexivity.
  - vm_compute. discriminate.
  - vm_compute. discriminate.
Defined.

(** [sum] returns a digest for every engine, message and encoding, and
    the engine it leaves is the freshly reset one. *)
Theorem sum_returns_and_resets (h : t) (msg : message) (enc : option string) :
  exists d, sum h msg enc = Ok (d, create).
Proof. apply sum_total. Qed.

(** With a non-empty string or any array as message, [sum] does not
    depend on what was written to the engine before. *)
Theorem sum_ignores_earlier_writes (h : t) (msg : message) (enc : option string) :
  truthy msg = true -> sum h msg enc = sum create msg enc.
Proof.
  intros Ht. rewrite (sum_unfold_truthy h msg enc Ht).
  rewrite (sum_unfold_truthy create msg enc Ht). reflexivity.
Qed.

Lemma sum_ignores_earlier_writes_witness :
  sum (mk iv [1; 2; 3] 3) (MArray []) None = sum create (MArray []) None.
Proof.
  apply sum_ignores_earlier_writes. reflexivity.
Defined.

(** The guard of [_compress] compares the array with 64, not its length:
    it throws for the empty array and for a one-element array whose
    element is below 64, and for no other block, however short. *)
Theorem compress_throws_iff (h : t) (m : list Z) :
  (exists e, _compress h m = Throw e) <->
  (m = [] \/ exists x, m = [x] /\ x < 64).
Proof.
  split.
  - intros [e He]. destruct m as [|x [|y m]].
    + left. reflexivity.
    + right. exists x. split; [reflexivity|].
      destruct (Z.ltb_spec x 64) as [Hx|Hx]; [exact Hx|].
      rewrite compress_ok in He; [discriminate|].
      cbn [array_lt]. apply Z.ltb_ge. exact Hx.
    + rewrite compress_ok in He by reflexivity. discriminate.
  - intros [-> | [x [-> Hx]]]; eexists; unfold _compress; cbn [array_lt].
    + reflexivity.
    + apply Z.ltb_lt in Hx. rewrite Hx. reflexivity.
Qed.

Lemma byte_mask (z : Z) : is_byte (u32 (Z.land z 0xff)).
Proof.
  unfold is_byte, u32.
  change 0xff with (Z.ones 8). change 0xffffffff with (Z.ones 32).
  rewrite !Z.land_ones by lia.
  pose proof (Z.mod_pos_bound z (2 ^ 8) ltac:(lia)) as H.
  rewrite (Z.mod_small (z mod 2 ^ 8)); [exact H|].
  split; [lia|]. apply Z.lt_trans with (2 ^ 8); [lia | reflexivity].
Qed.

Lemma sum_falsy_shape (h : t) (msg : message) (enc : option string) :
  truthy msg = false ->
  exists r, sum h msg enc = Ok (render enc r, create).
Proof.
  intros Hf. unfold sum. rewrite Hf. cbn [bind].
  destruct (fill_length h) as [k [Hk Hlen]].
  destruct (compress_all_ok _ (blocks_ok _ k Hlen) (_fill h)) as [r' E].
  rewrite E. cbn [bind]. exists r'. reflexivity.
Qed.

Lemma sum_shape (h : t) (msg : message) (enc : option string) :
  exists r, sum h msg enc = Ok (render enc r, create).
Proof.
  destruct (truthy msg) eqn:Ht.
  - rewrite (sum_unfold_truthy h msg enc Ht).
    destruct (truthy_bytes msg Ht) as [m Hm].
    destruct (write_spec (reset h) msg m) as [r' [rest [E _]]];
      [unfold len; simpl; lia | exact Hm |].
    rewrite E. cbn [bind]. apply sum_falsy_shape. reflexivity.
  - apply sum_falsy_shape. exact Ht.
Qed.

Lemma sum_bytes_32 (h : t) (msg : message) :
  exists bs, sum h msg None = Ok (DBytes bs, create) /\
             List.length bs = 32%nat /\ Forall is_byte bs.
Proof.
  destruct (sum_shape h msg None) as [r E].
  rewrite E. unfold render. cbn [is_hex].
  eexists. split; [reflexivity|].
  cbn [seq map flat_map bytes_of_word app]. split; [reflexivity|].
  repeat (apply Forall_cons; [apply byte_mask|]). apply Forall_nil.
Qed.

(** Without the encoding 'hex', [sum] returns an array of exactly 32
    bytes, whatever the engine and the message. *)
Theorem sum_default_is_32_bytes (h : t) (msg : message) :
  exists bs, sum h msg None = Ok (DBytes bs, create) /\
             List.length bs = 32%nat /\ Forall is_byte bs.
Proof. apply sum_bytes_32. Qed.

Lemma of_bytes_acc (l : list Z) (acc : Z) :
  fold_left (fun a x => a * 256 + x) l acc
  = acc * 256 ^ len l + BN.of_bytes l.
Proof.
  unfold BN.of_bytes. revert acc.
  induction l as [|x l IH]; intros acc.
  - unfold len. simpl. lia.
  - cbn [fold_left]. rewrite IH, (IH (0 * 256 + x)).
    replace (len (x :: l)) with (len l + 1) by (unfold len; cbn [List.length]; lia).
    rewrite Z.pow_add_r by (pose proof (len_nonneg l); lia).
    lia.
Qed.

Lemma of_bytes_app (l1 l2 : list Z) :
  BN.of_bytes (l1 ++ l2) = BN.of_bytes l1 * 256 ^ len l2 + BN.of_bytes l2.
Proof.
  unfold BN.of_bytes at 1. rewrite fold_left_app, of_bytes_acc. reflexivity.
Qed.

(** The four bytes that [_fill] pushes for one half of the length. *)
Lemma length_word_bytes (v : Z) :
  BN.of_bytes (map (fun i => Z.land (shru v ((3 - i) * 8)) 0xff) [0; 1; 2; 3])
  = v mod 2 ^ 32.
Proof.
  cbn [map]. unfold shru, u32, BN.of_bytes. cbn [fold_left].
  change ((3 - 0) * 8 mod 32) with 24. change ((3 - 1) * 8 mod 32) with 16.
  change ((3 - 2) * 8 mod 32) with 8. change ((3 - 3) * 8 mod 32) with 0.
  change 0xff with (Z.ones 8). change 0xffffffff with (Z.ones 32).
  rewrite !Z.land_ones, !Z.shiftr_div_pow2 by lia.
  set (w := v mod 2 ^ 32).
  assert (Hw : 0 <= w < 4294967296)
    by (apply (Z.mod_pos_bound v (2 ^ 32)); reflexivity).
  change (2 ^ 24) with 16777216. change (2 ^ 16) with 65536.
  change (2 ^ 8) with 256. change (2 ^ 0) with 1.
  Z.to_euclidean_division_equations. lia.
Qed.

(** The padding of [_fill]: the byte 0x80, the least number of zero bytes
    that brings the length to 56 modulo 64, and the number of bits of the
    message as eight big-endian bytes. *)
Theorem fill_pads (h : t) :
  0 <= size h < 2 ^ 61 ->
  exists tail,
    chunk (_fill h)
    = chunk h ++ [0x80]
      ++ repeat 0 (Z.to_nat ((55 - len (chunk h)) mod 64)) ++ tail /\
    List.length tail = 8%nat /\
    BN.of_bytes tail = size h * 8 /\
    len (chunk (_fill h)) mod 64 = 0.
Proof.
  intros Hs.
  set (hi := map (fun i => Z.land (shru (size h * 8 / 4294967296) ((3 - i) * 8)) 255)
                 [0; 1; 2; 3]).
  set (lo := map (fun i => Z.land (shru (size h * 8) ((3 - i) * 8)) 255)
                 [0; 1; 2; 3]).
  exists (hi ++ lo).
  assert (Hpad : forall c : Z, 0 <= c ->
            Z.to_nat (56 - (if 64 - (c + 1) mod 64 <? 8
                            then (c + 1) mod 64 - 64 else (c + 1) mod 64))
            = Z.to_nat ((55 - c) mod 64)).
  { intros c Hc. f_equal.
    destruct (Z.ltb_spec (64 - (c + 1) mod 64) 8);
      Z.to_euclidean_division_equations; lia. }
  split; [|split; [|split]].
  - unfold _fill. cbn [chunk]. fold hi. fold lo.
    rewrite len_app. change (len [128]) with 1.
    rewrite (Hpad _ (len_nonneg (chunk h))).
    rewrite <- !app_assoc. reflexivity.
  - reflexivity.
  - rewrite of_bytes_app. unfold hi, lo.
    rewrite !length_word_bytes.
    change (len (map _ [0; 1; 2; 3])) with 4.
    change (256 ^ 4) with 4294967296. change (2 ^ 32) with 4294967296.
    assert (0 <= size h * 8 < 18446744073709551616)
      by (change (2 ^ 61) with 2305843009213693952 in Hs; lia).
    Z.to_euclidean_division_equations. lia.
  - destruct (fill_length h) as [k [_ ->]].
    rewrite Z.mul_comm. apply Z.mod_mul. lia.
Qed.

Lemma fill_pads_witness :
  exists tail,
    chunk (_fill (mk iv [97; 98; 99] 3))
    = [97; 98; 99] ++ [0x80]
      ++ repeat 0 (Z.to_nat ((55 - 3) mod 64)) ++ tail /\
    List.length tail = 8%nat /\
    BN.of_bytes tail = 3 * 8 /\
    len (chunk (_fill (mk iv [97; 98; 99] 3))) mod 64 = 0.
Proof.
  apply (fill_pads (mk iv [97; 98; 99] 3)).
  vm_compute. split; [discriminate | reflexivity].
Defined.

(** The vector of the standard with two blocks: the 64 bytes "abcd" x 16. *)
Example sum_abcd_16 :
  sum create
      (MString "abcdabcdabcdabcdabcdabcdabcdabcdabcdabcdabcdabcdabcdabcdabcdabcd")
      (Some "hex")
  = Ok (DHex "debe9ff92275b8a138604889c18e5a4d6fdb70e5387e5765293dcba39c0c5732",
        create).
Proof. vm_compute. reflexivity. Qed.

End SM3Properties.

(* ================================================================= *)
(** * Hex strings: what [toString(16)] writes, [new BN(s, 16)] reads *)

Section HexFacts.

Import SM2.

Lemma slen_append (s1 s2 : string) : slen (s1 ++ s2) = slen s1 + slen s2.
Proof.
  unfold slen. induction s1 as [|c s1 IH]; cbn [append String.length].
  - lia.
  - rewrite !Nat2Z.inj_succ, IH. lia.
Qed.

Lemma slen_nonneg (s : string) : 0 <= slen s.
Proof. unfold slen. lia. Qed.

Lemma append_nil_r (s : string) : (s ++ "")%string = s.
Proof. induction s as [|c s IH]; cbn [append]; [reflexivity | now rewrite IH]. Qed.

Lemma append_assoc (s1 s2 s3 : string) :
  ((s1 ++ s2) ++ s3)%string = (s1 ++ (s2 ++ s3))%string.
Proof. induction s1 as [|c s1 IH]; cbn [append]; [reflexivity | now rewrite IH]. Qed.

Lemma all_lower_hex_append (s1 s2 : string) :
  all_lower_hex (s1 ++ s2) = all_lower_hex s1 && all_lower_hex s2.
Proof.
  induction s1 as [|c s1 IH]; cbn [append all_lower_hex].
  - reflexivity.
  - rewrite IH. apply andb_assoc.
Qed.

Lemma digits_append (val : ascii -> Z) (base : Z) (s1 s2 : string) (acc : Z) :
  BN.digits val base (s1 ++ s2) acc
  = BN.digits val base s2 (BN.digits val base s1 acc).
Proof.
  revert acc. induction s1 as [|c s1 IH]; intros acc; cbn [append BN.digits].
  - reflexivity.
  - apply IH.
Qed.

(** A character [0-9a-f] is read as its hex value, in base 16 and in
    base ten alike; it is neither blank nor a sign. *)
Lemma lower_hex_val (c : ascii) :
  lower_hex c = true ->
  0 <= BN.hex_val c < 16 /\ BN.base_val c = BN.hex_val c /\
  BN.is_space c = false /\ c <> "-"%char.
Proof.
  assert (Hall : forallb (fun k =>
            let c := ascii_of_nat k in
            negb (lower_hex c) ||
            ((0 <=? BN.hex_val c) && (BN.hex_val c <? 16) &&
             (BN.base_val c =? BN.hex_val c) && negb (BN.is_space c) &&
             negb (Ascii.eqb c "-"))) (seq 0 256) = true)
    by (vm_compute; reflexivity).
  intros Hc. rewrite forallb_forall in Hall.
  specialize (Hall (nat_of_ascii c)).
  rewrite ascii_nat_embedding in Hall.
  assert (Hin : In (nat_of_ascii c) (seq 0 256)).
  { apply in_seq. pose proof (nat_ascii_bounded c). lia. }
  specialize (Hall Hin). cbv zeta in Hall. rewrite Hc in Hall.
  cbn [negb orb] in Hall.
  repeat (apply andb_true_iff in Hall; destruct Hall as [Hall ?]).
  repeat split.
  - apply Z.leb_le. assumption.
  - apply Z.ltb_lt. assumption.
  - apply Z.eqb_eq. assumption.
  - destruct (BN.is_space c); [discriminate | reflexivity].
  - intros ->. discriminate.
Qed.

Lemma hexdigit_spec (d : Z) :
  0 <= d < 16 ->
  lower_hex (JS.hexdigit d) = true /\ BN.hex_val (JS.hexdigit d) = d.
Proof.
  intros Hd.
  assert (Hall : forallb (fun k =>
            let d := Z.of_nat k in
            lower_hex (JS.hexdigit d) && (BN.hex_val (JS.hexdigit d) =? d))
            (seq 0 16) = true)
    by (vm_compute; reflexivity).
  rewrite forallb_forall in Hall.
  specialize (Hall (Z.to_nat d)).
  assert (Hin : In (Z.to_nat d) (seq 0 16)) by (apply in_seq; lia).
  specialize (Hall Hin). cbv zeta in Hall.
  rewrite Z2Nat.id in Hall by lia.
  apply andb_true_iff in Hall. destruct Hall as [H1 H2].
  split; [exact H1 | apply Z.eqb_eq; exact H2].
Qed.

(** The loop of [toString(16)] writes the hex digits of [n], most
    significant first and without a leading zero, in front of [acc]. *)
Lemma hex_loop_spec (fuel : nat) :
  forall n acc, 0 <= n < 16 ^ Z.of_nat fuel ->
  exists pre,
    JS.hex_loop fuel n acc = (pre ++ acc)%string /\
    all_lower_hex pre = true /\
    (forall z, BN.digits BN.hex_val 16 pre z = z * 16 ^ slen pre + n) /\
    (0 < n -> 16 ^ (slen pre - 1) <= n) /\
    (n = 0 -> pre = EmptyString) /\
    n < 16 ^ slen pre.
Proof.
  induction fuel as [|fuel IH]; intros n acc Hn.
  - change (16 ^ Z.of_nat 0) with 1 in Hn. exists EmptyString.
    cbn [JS.hex_loop append all_lower_hex BN.digits]. unfold slen.
    cbn [String.length Z.of_nat]. repeat split; try lia; try reflexivity.
  - cbn [JS.hex_loop]. destruct (Z.leb_spec n 0) as [H0|Hpos].
    + exists EmptyString.
      cbn [append all_lower_hex BN.digits]. unfold slen.
      cbn [String.length Z.of_nat]. repeat split; try lia; try reflexivity.
    + rewrite Nat2Z.inj_succ, Z.pow_succ_r in Hn by lia.
      assert (Hq : 0 <= n / 16 < 16 ^ Z.of_nat fuel).
      { split; [apply Z.div_pos; lia|].
        apply Z.div_lt_upper_bound; lia. }
      assert (Hr : 0 <= n mod 16 < 16) by (apply Z.mod_pos_bound; lia).
      destruct (hexdigit_spec _ Hr) as [Hc Hv].
      destruct (IH (n / 16) (String (JS.hexdigit (n mod 16)) acc) Hq)
        as [pre [E [Hhex [Hdig [Hlow [Hzero Hupp]]]]]].
      exists (pre ++ String (JS.hexdigit (n mod 16)) EmptyString)%string.
      pose proof (slen_nonneg pre) as Hlen.
      assert (Hs : slen (pre ++ String (JS.hexdigit (n mod 16)) "")
                   = slen pre + 1).
      { rewrite slen_append. reflexivity. }
      pose proof (Z.div_mod n 16 ltac:(lia)) as Hdm.
      split; [|split; [|split; [|split; [|split]]]].
      * rewrite E, append_assoc. reflexivity.
      * rewrite all_lower_hex_append, Hhex. cbn [all_lower_hex].
        rewrite Hc. reflexivity.
      * intros z. rewrite digits_append, Hdig. cbn [BN.digits].
        rewrite Hv, Hs, Z.pow_add_r by lia. lia.
      * intros _. rewrite Hs. replace (slen pre + 1 - 1) with (slen pre) by lia.
        destruct (Z.eq_dec (n / 16) 0) as [Hz|Hnz].
        -- rewrite (Hzero Hz). change (16 ^ slen "") with 1. lia.
        -- assert (Hl := Hlow ltac:(lia)).
           assert (Hsp : 0 < slen pre).
           { destruct pre; [|unfold slen; cbn [String.length]; lia].
             change (slen "") with 0 in Hupp. change (16 ^ 0) with 1 in Hupp.
             lia. }
           replace (slen pre) with (slen pre - 1 + 1) by lia.
           rewrite Z.pow_add_r by lia. lia.
      * intros ->. lia.
      * rewrite Hs, Z.pow_add_r by lia. lia.
Qed.

(** [toString(16)] of a number [n >= 0]. *)
Lemma toString16_spec (n : Z) :
  0 <= n ->
  let s := JS.toString16 n in
  all_lower_hex s = true /\ 0 < slen s /\
  (forall z, BN.digits BN.hex_val 16 s z = z * 16 ^ slen s + n) /\
  (0 < n -> 16 ^ (slen s - 1) <= n < 16 ^ slen s).
Proof.
  intros Hn. cbv zeta. unfold JS.toString16.
  destruct (Z.leb_spec n 0) as [H0|Hpos].
  - assert (n = 0) by lia. subst n.
    split; [reflexivity|]. split; [reflexivity|]. split; [|lia].
    intros z. cbn [BN.digits]. change (slen "0") with 1.
    change (BN.hex_val "0") with 0. lia.
  - assert (Hf : 0 <= n < 16 ^ Z.of_nat (S (Z.to_nat (Z.log2 n)))).
    { split; [lia|].
      rewrite Nat2Z.inj_succ, Z2Nat.id by (apply Z.log2_nonneg).
      apply Z.lt_le_trans with (2 ^ Z.succ (Z.log2 n)).
      - apply Z.log2_spec. lia.
      - apply Z.pow_le_mono_l. pose proof (Z.log2_nonneg n). lia. }
    destruct (hex_loop_spec _ n EmptyString Hf)
      as [pre [E [Hhex [Hdig [Hlow [_ Hupp]]]]]].
    rewrite E, append_nil_r.
    split; [exact Hhex|]. split; [|split; [exact Hdig|]].
    + destruct pre; [|unfold slen; cbn [String.length]; lia].
      change (slen "") with 0 in Hupp. change (16 ^ 0) with 1 in Hupp. lia.
    + intros _. split; [apply Hlow; lia | exact Hupp].
Qed.

Lemma strip_hex (s : string) : all_lower_hex s = true -> BN.strip s = s.
Proof.
  induction s as [|c s IH]; cbn [all_lower_hex BN.strip]; intros H.
  - reflexivity.
  - apply andb_true_iff in H. destruct H as [Hc Hs].
    destruct (lower_hex_val c Hc) as [_ [_ [-> _]]].
    rewrite (IH Hs). reflexivity.
Qed.

(** Reading a string of hex characters: no sign, no blanks to drop. *)
Lemma parse_hex_string (val : ascii -> Z) (base : Z) (s : string) :
  all_lower_hex s = true -> BN.parse val base s = BN.digits val base s 0.
Proof.
  intros H. unfold BN.parse. rewrite (strip_hex s H).
  destruct s as [|c s]; [reflexivity|].
  cbn [all_lower_hex] in H. apply andb_true_iff in H. destruct H as [Hc _].
  destruct (lower_hex_val c Hc) as [_ [_ [_ Hminus]]].
  destruct c as [[] [] [] [] [] [] [] []]; try reflexivity.
  exfalso. apply Hminus. reflexivity.
Qed.

(** What [toString(16)] writes, [new BN(s, 16)] reads back. *)
Lemma of_hex_toString16 (n : Z) : 0 <= n -> BN.of_hex (JS.toString16 n) = n.
Proof.
  intros Hn. destruct (toString16_spec n Hn) as [Hhex [_ [Hdig _]]].
  unfold BN.of_hex. rewrite (parse_hex_string _ _ _ Hhex), Hdig. lia.
Qed.

Lemma zeros_snoc (k : nat) :
  (zeros k ++ String "0" EmptyString)%string = String "0" (zeros k).
Proof.
  induction k as [|k IH]; cbn [zeros append]; [reflexivity | now rewrite IH].
Qed.

Lemma pad_loop_zeros (p : Z) (fuel : nat) :
  forall s, exists k, BN.pad_loop fuel p s = (zeros k ++ s)%string.
Proof.
  induction fuel as [|fuel IH]; intros s; cbn [BN.pad_loop].
  - exists 0%nat. reflexivity.
  - destruct (_ =? 0).
    + exists 0%nat. reflexivity.
    + destruct (IH (String "0" s)) as [k E]. exists (S k).
      rewrite E. cbn [zeros]. rewrite <- zeros_snoc, append_assoc.
      reflexivity.
Qed.

Lemma pad_loop_len32 (fuel : nat) :
  forall s, (- slen s) mod 32 <= Z.of_nat fuel ->
  slen (BN.pad_loop fuel 32 s) = slen s + (- slen s) mod 32.
Proof.
  induction fuel as [|fuel IH]; intros s Hf; cbn [BN.pad_loop].
  - pose proof (Z.mod_pos_bound (- slen s) 32 ltac:(lia)). lia.
  - fold (slen s). destruct (Z.eqb_spec (slen s mod 32) 0) as [H0|H0].
    + revert H0. Z.to_euclidean_division_equations. lia.
    + assert (Hs : slen (String "0" s) = slen s + 1)
        by (unfold slen; cbn [String.length]; lia).
      rewrite IH; rewrite Hs.
      * revert H0. Z.to_euclidean_division_equations. lia.
      * revert H0 Hf. Z.to_euclidean_division_equations. lia.
Qed.

Lemma zeros_hex (k : nat) :
  all_lower_hex (zeros k) = true /\
  forall val base, val "0"%char = 0 -> BN.digits val base (zeros k) 0 = 0.
Proof.
  induction k as [|k [IH1 IH2]]; cbn [zeros all_lower_hex BN.digits].
  - split; reflexivity.
  - split; [rewrite IH1; reflexivity|].
    intros val base Hv. rewrite Hv. cbn [Z.mul Z.add]. apply IH2. exact Hv.
Qed.

(** [toString(16, 32)] of a coordinate: hex characters that read back as
    the value; 64 of them from [2^128] on, and 32 below. *)
Lemma bn_toString16_32 (v : Z) :
  0 <= v < 2 ^ 256 ->
  let s := BN.toString16 v 32 in
  all_lower_hex s = true /\ BN.of_hex s = v /\
  slen s = if v <? 2 ^ 128 then 32 else 64.
Proof.
  intros Hv. cbv zeta. unfold BN.toString16.
  change (32 =? 0) with false. cbv iota.
  destruct (Z.ltb_spec v 0) as [?|_]; [lia|].
  rewrite Z.abs_eq by lia.
  destruct (toString16_spec v (proj1 Hv)) as [Hhex [Hpos [Hdig Hrange]]].
  set (t := JS.toString16 v) in *.
  destruct (pad_loop_zeros 32 (Z.to_nat 32) t) as [k E].
  pose proof (pad_loop_len32 (Z.to_nat 32) t) as Hlen.
  rewrite E in *.
  destruct (zeros_hex k) as [Hz1 Hz2].
  assert (Hall : all_lower_hex (zeros k ++ t) = true).
  { rewrite all_lower_hex_append, Hz1, Hhex. reflexivity. }
  split; [exact Hall|]. split.
  - unfold BN.of_hex. rewrite (parse_hex_string _ _ _ Hall), digits_append.
    rewrite (Hz2 BN.hex_val 16 eq_refl), Hdig. lia.
  - rewrite Hlen
      by (pose proof (Z.mod_pos_bound (- slen t) 32 ltac:(lia));
          change (Z.of_nat (Z.to_nat 32)) with 32; lia).
    destruct (Z.ltb_spec v (2 ^ 128)) as [Hsmall|Hbig].
    + assert (slen t <= 32).
      { destruct (Z.eq_dec v 0) as [->|Hnz].
        - unfold t. vm_compute. discriminate.
        - destruct (Hrange ltac:(lia)) as [Hlo _].
          assert (16 ^ (slen t - 1) < 16 ^ 32)
            by (change (16 ^ 32) with (2 ^ 128); lia).
          apply Z.pow_lt_mono_r_iff in H; lia. }
      Z.to_euclidean_division_equations. lia.
    + assert (0 < v) by (assert (0 < 2 ^ 128) by reflexivity; lia).
      destruct (Hrange H) as [Hlo Hhi].
      assert (H1 : 16 ^ 32 < 16 ^ slen t)
        by (change (16 ^ 32) with (2 ^ 128); lia).
      apply Z.pow_lt_mono_r_iff in H1; [|lia|lia].
      assert (H2 : 16 ^ (slen t - 1) < 16 ^ 64)
        by (change (16 ^ 64) with (2 ^ 256); lia).
      apply Z.pow_lt_mono_r_iff in H2; [|lia|lia].
      Z.to_euclidean_division_equations. lia.
Qed.

Lemma substring_prefix (a b : string) (k : nat) :
  String.length a = k -> substring 0 k (a ++ b) = a.
Proof.
  revert k. induction a as [|c a IH]; intros k Hk; cbn [String.length] in Hk;
    subst k; cbn [append substring].
  - destruct b; reflexivity.
  - rewrite IH; reflexivity.
Qed.

Lemma substring_skip (a b : string) (k m : nat) :
  String.length a = k -> substring k m (a ++ b) = substring 0 m b.
Proof.
  revert k. induction a as [|c a IH]; intros k Hk; cbn [String.length] in Hk;
    subst k; cbn [append substring].
  - reflexivity.
  - apply IH. reflexivity.
Qed.

Lemma substring_whole (a : string) (k : nat) :
  String.length a = k -> substring 0 k a = a.
Proof.
  intros Hk. rewrite <- (append_nil_r a) at 1.
  rewrite (substring_prefix a EmptyString k Hk). reflexivity.
Qed.

End HexFacts.

(* ================================================================= *)
(** * Encoding and decoding public keys *)

Section PublicKeyCodec.

Import Curve SM2.

Lemma substring_0_0 (s : string) : substring 0 0 s = EmptyString.
Proof. destruct s; reflexivity. Qed.

Lemma coord_truthy_nonempty (s : string) (k : nat) :
  String.length s = S k -> coord_truthy (CString s) = true.
Proof. destruct s; [discriminate | reflexivity]. Qed.

Ltac decode_with_tag Hx Hy :=
  unfold _pubFromString;
  rewrite !slen_append; unfold slen; rewrite Hx, Hy;
  cbv iota zeta; cbn [append substring];
  rewrite substring_0_0;
  rewrite (substring_prefix _ _ _ Hx), (substring_skip _ _ _ _ Hx),
    (substring_whole _ _ Hy);
  reflexivity.

(** The decoder treats the prefixes 04, 06 and 07 alike: it reads [X] and
    [Y] from fixed offsets and does not look at the parity that 06 and
    07 announce. *)
Lemma pubFromString_uncompressed (tag hx hy : string) :
  tag = "04" \/ tag = "06" \/ tag = "07" ->
  String.length hx = 64%nat -> String.length hy = 64%nat ->
  _pubFromString (tag ++ hx ++ hy)
  = _sm2Point (CString hx) (Some (CString hy)) false.
Proof.
  intros [ -> | [ -> | -> ] ] Hx Hy; decode_with_tag Hx Hy.
Qed.

(** A coordinate whose value is not negative passes [toRed]. *)
Lemma negative_bn (c : coord) : 0 <= bn c -> negative c = false.
Proof.
  destruct c as [s|b0]; cbn [bn negative]; intros H; [|reflexivity].
  apply Z.ltb_ge. exact H.
Qed.

(** A point given by both coordinates comes back from [_sm2Point] when it
    satisfies the curve equation. *)
Lemma sm2Point_both (cx cy : coord) (x y : Z) :
  coord_truthy cx = true -> coord_truthy cy = true ->
  bn cx = x -> bn cy = y -> 0 <= x < p -> 0 <= y < p ->
  Curve.validate (Aff x y) = true ->
  _sm2Point cx (Some cy) false = Ok (Aff x y).
Proof.
  intros Hcx Hcy Hbx Hby Hx Hy Hv. unfold _sm2Point, truthy_coord.
  rewrite Hcx, Hcy. cbn [negb].
  rewrite (negative_bn cx), (negative_bn cy) by lia. cbn [orb].
  rewrite Hbx, Hby. unfold mkpoint.
  rewrite !Z.mod_small by assumption. rewrite Hv. reflexivity.
Qed.

(** In the modes 'nocompress' (the default) and 'mix', the hex string of
    a public key whose coordinates are at least [2^128] decodes to the
    same point. *)
Theorem pubToString_roundtrip (x y : Z) (d : option Z) (mode : option string) :
  2 ^ 128 <= x < p -> 2 ^ 128 <= y < p ->
  Curve.validate (Aff x y) = true ->
  is_mode mode "compress" = false ->
  (s <- pubToString (mkKeyPair (Some (Aff x y)) d) mode ;; _pubFromString s)
  = Ok (Aff x y).
Proof.
  intros Hx Hy Hv Hmode.
  assert (Hp : p < 2 ^ 256) by reflexivity.
  assert (H128 : 0 < 2 ^ 128) by reflexivity.
  destruct (bn_toString16_32 x ltac:(lia)) as [Hhx [Hox Hlx]].
  destruct (bn_toString16_32 y ltac:(lia)) as [Hhy [Hoy Hly]].
  destruct (Z.ltb_spec x (2 ^ 128)) as [?|_]; [lia|].
  destruct (Z.ltb_spec y (2 ^ 128)) as [?|_]; [lia|].
  assert (Lx : String.length (BN.toString16 x 32) = 64%nat)
    by (unfold slen in Hlx; lia).
  assert (Ly : String.length (BN.toString16 y 32) = 64%nat)
    by (unfold slen in Hly; lia).
  assert (Hdec : forall tag, tag = "04" \/ tag = "06" \/ tag = "07" ->
            _pubFromString (tag ++ BN.toString16 x 32 ++ BN.toString16 y 32)
            = Ok (Aff x y)).
  { intros tag Ht. rewrite (pubFromString_uncompressed tag _ _ Ht Lx Ly).
    apply sm2Point_both; try assumption; try lia.
    - apply (coord_truthy_nonempty _ 63 Lx).
    - apply (coord_truthy_nonempty _ 63 Ly). }
  unfold pubToString, the_pub. cbn [pub bind]. rewrite Hmode.
  destruct (is_mode mode "mix"); cbn [getX getY bind].
  - destruct (Z.even y); apply Hdec; auto.
  - apply Hdec; auto.
Qed.

Lemma pubToString_roundtrip_witness :
  (s <- pubToString (mkKeyPair (Some g) None) (Some "mix") ;; _pubFromString s)
  = Ok g.
Proof.
  apply (pubToString_roundtrip gx gy None (Some "mix")).
  - vm_compute. split; [discriminate | reflexivity].
  - vm_compute. split; [discriminate | reflexivity].
  - vm_compute. reflexivity.
  - reflexivity.
Defined.

Ltac reject_short Hx Hy :=
  unfold _pubFromString;
  rewrite !slen_append; unfold slen; rewrite Hx, Hy;
  cbv iota zeta; cbn [append substring];
  rewrite substring_0_0;
  reflexivity.

Lemma pubFromString_short (tag hx hy : string) (kx ky : nat) :
  tag = "04" \/ tag = "06" \/ tag = "07" ->
  String.length hx = kx -> String.length hy = ky ->
  ((kx = 32 /\ ky = 32) \/ (kx = 32 /\ ky = 64) \/ (kx = 64 /\ ky = 32))%nat ->
  _pubFromString (tag ++ hx ++ hy) = Throw "invalid key string".
Proof.
  intros Ht Hx Hy [[-> ->] | [[-> ->] | [-> ->]]];
    destruct Ht as [ -> | [ -> | -> ] ]; reject_short Hx Hy.
Qed.

(** When a coordinate is below [2^128], [pubToString] writes it with 32
    hex characters and the decoder rejects the string: in every mode for
    a short [X], in the modes with [Y] for a short [Y]. *)
Theorem pubToString_short_rejected (x y : Z) (d : option Z)
        (mode : option string) :
  0 <= x < 2 ^ 256 -> 0 <= y < 2 ^ 256 ->
  x < 2 ^ 128 \/ (y < 2 ^ 128 /\ is_mode mode "compress" = false) ->
  (s <- pubToString (mkKeyPair (Some (Aff x y)) d) mode ;; _pubFromString s)
  = Throw "invalid key string".
Proof.
  intros Hx Hy Hshort.
  destruct (bn_toString16_32 x Hx) as [_ [_ Hlx]].
  destruct (bn_toString16_32 y Hy) as [_ [_ Hly]].
  unfold pubToString, the_pub. cbn [pub bind].
  destruct (is_mode mode "compress") eqn:Hmode; cbn [getX getY bind].
  - destruct Hshort as [Hs|[_ Hs]]; [|discriminate].
    destruct (Z.ltb_spec x (2 ^ 128)) as [_|?]; [|lia].
    assert (Lx : String.length (BN.toString16 x 32) = 32%nat)
      by (unfold slen in Hlx; lia).
    destruct (Z.even y); unfold _pubFromString;
      rewrite slen_append; unfold slen; rewrite Lx; reflexivity.
  - assert (Hlens :
      exists kx ky, String.length (BN.toString16 x 32) = kx /\
                    String.length (BN.toString16 y 32) = ky /\
                    ((kx = 32 /\ ky = 32) \/ (kx = 32 /\ ky = 64)
                     \/ (kx = 64 /\ ky = 32))%nat).
    { unfold slen in Hlx, Hly.
      destruct (Z.ltb_spec x (2 ^ 128)), (Z.ltb_spec y (2 ^ 128)).
      - exists 32%nat, 32%nat. repeat split; lia.
      - exists 32%nat, 64%nat. repeat split; lia.
      - exists 64%nat, 32%nat. repeat split; lia.
      - lia. }
    destruct Hlens as [kx [ky [Lx [Ly Hk]]]].
    destruct (is_mode mode "mix"); cbn [getX getY bind].
    + destruct (Z.even y);
        apply (pubFromString_short _ _ _ kx ky); auto.
    + apply (pubFromString_short _ _ _ kx ky); auto.
Qed.

Lemma pubToString_short_rejected_witness :
  (s <- pubToString (mkKeyPair (Some (Aff 0 y_at_0)) None) (Some "compress") ;;
   _pubFromString s) = Throw "invalid key string".
Proof.
  apply pubToString_short_rejected.
  - vm_compute. split; [discriminate | reflexivity].
  - vm_compute. split; [discriminate | reflexivity].
  - left. reflexivity.
Defined.

(** *** Byte arrays *)

Lemma be_bytes_are_bytes (k : nat) (v : Z) : Forall is_byte (BN.be_bytes k v).
Proof.
  revert v. induction k as [|k IH]; intros v; cbn [BN.be_bytes].
  - constructor.
  - apply Forall_app. split; [apply IH|].
    constructor; [|constructor]. apply Z.mod_pos_bound. lia.
Qed.

(** The big-endian bytes of a value read back as the value. *)
Lemma of_bytes_be_bytes (k : nat) :
  forall v, 0 <= v -> BN.of_bytes (BN.be_bytes k v) = v mod 256 ^ Z.of_nat k.
Proof.
  induction k as [|k IH]; intros v Hv; cbn [BN.be_bytes].
  - change (256 ^ Z.of_nat 0) with 1. rewrite Z.mod_1_r. reflexivity.
  - rewrite of_bytes_app, IH by (apply Z.div_pos; lia).
    change (JS.len [v mod 256]) with 1. change (256 ^ 1) with 256.
    change (BN.of_bytes [v mod 256]) with (0 * 256 + v mod 256).
    rewrite Nat2Z.inj_succ, Z.pow_succ_r by lia.
    rewrite Z.rem_mul_r by (try lia; apply Z.pow_pos_nonneg; lia).
    lia.
Qed.

Lemma toArray_32 (v : Z) :
  0 <= v < 2 ^ 256 -> BN.toArray v 32 = Ok (BN.be_bytes 32 v).
Proof.
  intros Hv. unfold BN.toArray. change (32 =? 0) with false. cbv iota.
  pose proof (byteLength_bound v 32 ltac:(lia) ltac:(simpl; lia)).
  destruct (Z.ltb_spec 32 (BN.byteLength v)); [lia|].
  rewrite Z.abs_eq by lia. reflexivity.
Qed.

Lemma of_bytes_be_32 (v : Z) :
  0 <= v < 2 ^ 256 -> BN.of_bytes (BN.be_bytes 32 v) = v.
Proof.
  intros Hv. rewrite of_bytes_be_bytes by lia.
  apply Z.mod_small. change (256 ^ Z.of_nat 32) with (2 ^ 256). exact Hv.
Qed.

Lemma slice_tagged (t : Z) (xs ys : list Z) :
  List.length xs = 32%nat -> List.length ys = 32%nat ->
  JS.slice (([t] ++ xs) ++ ys) 1 33 = xs /\
  JS.slice (([t] ++ xs) ++ ys) 33 65 = ys /\
  JS.len (([t] ++ xs) ++ ys) = 65.
Proof.
  intros Hx Hy.
  assert (Hl : JS.len (([t] ++ xs) ++ ys) = 65).
  { unfold JS.len. rewrite !length_app, Hx, Hy. reflexivity. }
  split; [|split; [|exact Hl]].
  - rewrite slice_range by lia.
    change (Z.to_nat (33 - 1)) with 32%nat. change (Z.to_nat 1) with 1%nat.
    cbn [app skipn]. rewrite firstn_app, Hx.
    rewrite Nat.sub_diag, firstn_O, app_nil_r.
    rewrite <- Hx. apply firstn_all.
  - rewrite slice_range by lia.
    change (Z.to_nat (65 - 33)) with 32%nat. change (Z.to_nat 33) with 33%nat.
    rewrite skipn_app.
    replace (List.length ([t] ++ xs)) with 33%nat
      by (rewrite length_app, Hx; reflexivity).
    rewrite Nat.sub_diag, skipn_O.
    rewrite (skipn_all2 ([t] ++ xs)) by (rewrite length_app, Hx; simpl; lia).
    cbn [app]. rewrite <- Hy. apply firstn_all.
Qed.

(** Decoding a byte array with one of the prefixes 04, 06, 07. *)
Lemma pubFromBytes_uncompressed (t : Z) (xs ys : list Z) :
  t = 4 \/ t = 6 \/ t = 7 ->
  List.length xs = 32%nat -> List.length ys = 32%nat ->
  _pubFromBytes (([t] ++ xs) ++ ys)
  = _sm2Point (CArray xs) (Some (CArray ys)) false.
Proof.
  intros Ht Hx Hy. unfold _pubFromBytes.
  destruct (slice_tagged t xs ys Hx Hy) as [-> [-> ->]].
  change (65 <? 33) with false. change (65 <? 65) with false.
  cbv iota zeta. cbn [app nth].
  destruct Ht as [ -> | [ -> | -> ] ]; reflexivity.
Qed.

(** In the modes 'nocompress' (the default) and 'mix', the bytes of a
    public key on the curve decode to the same point. *)
Theorem pubToBytes_roundtrip (x y : Z) (d : option Z) (mode : option string) :
  0 <= x < p -> 0 <= y < p ->
  Curve.validate (Aff x y) = true ->
  is_mode mode "compress" = false ->
  (b <- pubToBytes (mkKeyPair (Some (Aff x y)) d) mode ;; _pubFromBytes b)
  = Ok (Aff x y).
Proof.
  intros Hx Hy Hv Hmode.
  assert (Hp : p < 2 ^ 256) by reflexivity.
  assert (Hdec : forall t, t = 4 \/ t = 6 \/ t = 7 ->
            _pubFromBytes (([t] ++ BN.be_bytes 32 x) ++ BN.be_bytes 32 y)
            = Ok (Aff x y)).
  { intros t Ht.
    rewrite (pubFromBytes_uncompressed t _ _ Ht
               (be_bytes_length 32 x) (be_bytes_length 32 y)).
    apply sm2Point_both; try assumption; try reflexivity.
    - apply of_bytes_be_32. lia.
    - apply of_bytes_be_32. lia. }
  unfold pubToBytes, the_pub. cbn [pub bind]. rewrite Hmode.
  destruct (is_mode mode "mix"); cbn [getX getY bind];
    rewrite (toArray_32 x), (toArray_32 y) by lia; cbn [bind].
  - destruct (Z.even y); apply Hdec; auto.
  - apply Hdec; auto.
Qed.

Lemma pubToBytes_roundtrip_witness :
  (b <- pubToBytes (mkKeyPair (Some (Aff 0 y_at_0)) None) None ;;
   _pubFromBytes b) = Ok (Aff 0 y_at_0).
Proof.
  apply pubToBytes_roundtrip.
  - vm_compute. split; [discriminate | reflexivity].
  - vm_compute. split; [discriminate | reflexivity].
  - vm_compute. reflexivity.
  - reflexivity.
Defined.

(** [pubToBytes] returns 33 bytes in the mode 'compress' and 65 in the
    other modes; the first byte tells the mode and, but for 04, the
    parity of [Y]. *)
Theorem pubToBytes_length (x y : Z) (d : option Z) (mode : option string) :
  0 <= x < 2 ^ 256 -> 0 <= y < 2 ^ 256 ->
  exists t rest,
    pubToBytes (mkKeyPair (Some (Aff x y)) d) mode = Ok (t :: rest) /\
    Forall is_byte (t :: rest) /\
    Z.of_nat (List.length rest)
      = (if is_mode mode "compress" then 32 else 64) /\
    t = (if is_mode mode "compress" then (if Z.even y then 2 else 3)
         else if is_mode mode "mix" then (if Z.even y then 6 else 7)
         else 4).
Proof.
  intros Hx Hy. unfold pubToBytes, the_pub. cbn [pub bind].
  pose proof (be_bytes_are_bytes 32 x) as Bx.
  pose proof (be_bytes_are_bytes 32 y) as By.
  assert (B2 : forall t, t = 2 \/ t = 3 \/ t = 4 \/ t = 6 \/ t = 7 -> is_byte t)
    by (unfold is_byte; lia).
  destruct (is_mode mode "compress").
  - cbn [getX getY bind]. rewrite (toArray_32 x Hx). cbn [bind].
    exists (if Z.even y then 2 else 3), (BN.be_bytes 32 x).
    split; [destruct (Z.even y); reflexivity|].
    split; [|split; [rewrite be_bytes_length; reflexivity | reflexivity]].
    constructor; [destruct (Z.even y); apply B2; auto | exact Bx].
  - destruct (is_mode mode "mix"); cbn [getX getY bind];
      rewrite (toArray_32 x Hx), (toArray_32 y Hy); cbn [bind].
    + exists (if Z.even y then 6 else 7), (BN.be_bytes 32 x ++ BN.be_bytes 32 y).
      split; [destruct (Z.even y); reflexivity|].
      split; [|split; [rewrite length_app, !be_bytes_length; reflexivity
                      | reflexivity]].
      constructor; [destruct (Z.even y); apply B2; auto|].
      apply Forall_app. split; assumption.
    + exists 4, (BN.be_bytes 32 x ++ BN.be_bytes 32 y).
      split; [reflexivity|].
      split; [|split; [rewrite length_app, !be_bytes_length; reflexivity
                      | reflexivity]].
      constructor; [apply B2; auto|].
      apply Forall_app. split; assumption.
Qed.

Lemma pubToBytes_length_witness :
  exists t rest,
    pubToBytes (mkKeyPair (Some g) None) (Some "compress") = Ok (t :: rest) /\
    Forall is_byte (t :: rest) /\
    Z.of_nat (List.length rest) = 32 /\ t = 2.
Proof.
  apply (pubToBytes_length gx gy None (Some "compress")).
  - vm_compute. split; [discriminate | reflexivity].
  - vm_compute. split; [discriminate | reflexivity].
Defined.

Lemma pow_pos_range (v : Z) (e : positive) (m : Z) :
  0 < m -> 0 <= BN.pow_pos v e m < m.
Proof.
  intros Hm. destruct e; cbn [BN.pow_pos]; apply Z.mod_pos_bound; exact Hm.
Qed.

Lemma redSqrt_range (v : Z) : 0 <= redSqrt v < p.
Proof.
  assert (Hp : 0 < p) by reflexivity.
  unfold redSqrt. destruct (v =? 0); [lia|].
  unfold BN.powm.
  let e := eval vm_compute in ((p + 1) / 4) in change ((p + 1) / 4) with e.
  cbv beta iota. apply pow_pos_range. exact Hp.
Qed.

Lemma digits_nonneg (s : string) :
  forall acc, all_lower_hex s = true -> 0 <= acc ->
  0 <= BN.digits BN.hex_val 16 s acc.
Proof.
  induction s as [|c s IH]; cbn [all_lower_hex BN.digits]; intros acc H Ha.
  - exact Ha.
  - apply andb_true_iff in H. destruct H as [Hc Hs].
    destruct (lower_hex_val c Hc) as [Hv _].
    apply IH; [exact Hs | lia].
Qed.

(** A string of hex digits reads as a number that is not negative, and
    with '-' in front as the opposite number. *)
Lemma of_hex_sign (s : string) :
  all_lower_hex s = true ->
  0 <= BN.of_hex s /\ BN.of_hex (String "-" s) = - BN.of_hex s.
Proof.
  intros H. unfold BN.of_hex. rewrite (parse_hex_string _ _ _ H). split.
  - apply digits_nonneg; [exact H | lia].
  - unfold BN.parse. cbn [BN.strip].
    change (BN.is_space "-") with false. cbv iota.
    rewrite (strip_hex s H). reflexivity.
Qed.

(** Decoding a compressed key whose abscissa is an array of bytes or a
    non-empty string of hex digits never fails in [_sm2Point] itself: it
    returns the abscissa reduced modulo [p] and an ordinate of the parity
    asked for (or 0), and does not test that the two satisfy the curve
    equation.  With '-' in front of a string of value other than 0 the
    number is negative and [toRed] throws. *)
Theorem sm2Point_compressed (cx : coord) (odd : bool) :
  plain_coord cx ->
  (exists Y,
     _sm2Point cx None odd = Ok (Aff (bn cx mod p) Y) /\
     0 <= Y < p /\ (Y = 0 \/ Z.odd Y = odd)) /\
  (forall s, cx = CString s -> 0 < BN.of_hex s ->
     _sm2Point (CString (String "-" s)) None odd
     = Throw "red works only with positives").
Proof.
  intros Hplain. assert (Hp : 0 < p) by reflexivity.
  assert (Hcx : coord_truthy cx = true /\ negative cx = false).
  { destruct cx as [s|b0]; cbn [plain_coord] in Hplain.
    - destruct Hplain as [Hne Hhex]. split.
      + destruct s; [contradiction Hne; reflexivity | reflexivity].
      + apply negative_bn. cbn [bn]. apply (of_hex_sign s Hhex).
    - split; reflexivity. }
  destruct Hcx as [Hcx Hneg]. split.
  - unfold _sm2Point. rewrite Hcx, Hneg. cbn [negb truthy_coord]. cbv zeta.
    set (px := bn cx mod p).
    set (py := redSqrt _).
    assert (Hpy : 0 <= py < p) by (unfold py; apply redSqrt_range).
    set (py' := if Bool.eqb odd (Z.odd py) then py else redNeg py).
    assert (H' : 0 <= py' < p /\ (py' = 0 \/ Z.odd py' = odd)).
    { unfold py'. destruct (Bool.eqb odd (Z.odd py)) eqn:E.
      - split; [exact Hpy|]. right. apply Bool.eqb_prop in E. congruence.
      - unfold redNeg. destruct (Z.eqb_spec py 0) as [H0|H0].
        + split; [lia | left; reflexivity].
        + split; [lia|]. right.
          rewrite Z.odd_sub. change (Z.odd p) with true.
          apply Bool.eqb_false_iff in E.
          destruct odd, (Z.odd py); try reflexivity; congruence. }
    destruct H' as [Hr Hpar].
    exists py'. split; [|split; assumption].
    unfold mkpoint. unfold px at 1. rewrite Z.mod_mod by lia.
    rewrite (Z.mod_small py') by exact Hr. reflexivity.
  - intros s -> Hs. cbn [plain_coord] in Hplain.
    destruct Hplain as [_ Hhex].
    destruct (of_hex_sign s Hhex) as [_ Hm].
    unfold _sm2Point. cbn [coord_truthy negb truthy_coord negative].
    rewrite Hm. destruct (Z.ltb_spec (- BN.of_hex s) 0); [reflexivity | lia].
Qed.

Lemma sm2Point_compressed_witness :
  (exists Y,
     _sm2Point (CString "2a") None true
     = Ok (Aff (bn (CString "2a") mod p) Y) /\
     0 <= Y < p /\ (Y = 0 \/ Z.odd Y = true)) /\
  _sm2Point (CString "-2a") None true = Throw "red works only with positives".
Proof.
  assert (Hplain : plain_coord (CString "2a")).
  { split; [discriminate | reflexivity]. }
  destruct (sm2Point_compressed (CString "2a") true Hplain) as [H1 H2].
  split; [exact H1|].
  apply (H2 "2a"%string eq_refl). reflexivity.
Defined.

(** The parity that the prefixes 06 and 07 announce is never compared
    with [Y]: a point of the curve decodes from its two coordinates under
    any of the prefixes 04, 06 and 07. *)
Theorem pubFromBytes_ignores_parity (x y t : Z) :
  0 <= x < p -> 0 <= y < p ->
  Curve.validate (Aff x y) = true ->
  t = 4 \/ t = 6 \/ t = 7 ->
  _pubFromBytes (([t] ++ BN.be_bytes 32 x) ++ BN.be_bytes 32 y) = Ok (Aff x y).
Proof.
  intros Hx Hy Hv Ht.
  assert (Hp : p < 2 ^ 256) by reflexivity.
  rewrite (pubFromBytes_uncompressed t _ _ Ht
             (be_bytes_length 32 x) (be_bytes_length 32 y)).
  apply sm2Point_both; try assumption; try reflexivity.
  - apply of_bytes_be_32. lia.
  - apply of_bytes_be_32. lia.
Qed.

Lemma pubFromBytes_ignores_parity_witness :
  Z.even gy = true /\
  _pubFromBytes (([7] ++ BN.be_bytes 32 gx) ++ BN.be_bytes 32 gy) = Ok g.
Proof.
  split; [reflexivity|].
  apply (pubFromBytes_ignores_parity gx gy 7).
  - vm_compute. split; [discriminate | reflexivity].
  - vm_compute. split; [discriminate | reflexivity].
  - vm_compute. reflexivity.
  - right. right. reflexivity.
Defined.

(** A point that [_pubFromBytes] returns for one of the prefixes 04, 06,
    07 satisfies the curve equation. *)
Theorem pubFromBytes_on_curve (b0 : list Z) (P : point) :
  nth 0 b0 0 = 4 \/ nth 0 b0 0 = 6 \/ nth 0 b0 0 = 7 ->
  _pubFromBytes b0 = Ok P -> Curve.validate P = true.
Proof.
  intros Ht. unfold _pubFromBytes.
  destruct (JS.len b0 <? 33); [discriminate|].
  cbv zeta.
  assert (Htag : (nth 0 b0 0 =? 0) = false /\ (nth 0 b0 0 =? 2) = false /\
                 (nth 0 b0 0 =? 3) = false /\
                 ((nth 0 b0 0 =? 4) || (nth 0 b0 0 =? 6) || (nth 0 b0 0 =? 7))
                 = true).
  { destruct Ht as [ -> | [ -> | -> ] ]; repeat split; reflexivity. }
  destruct Htag as [-> [-> [-> ->]]].
  destruct (JS.len b0 <? 65); [discriminate|].
  unfold _sm2Point, truthy_coord. cbn [coord_truthy negb negative orb].
  destruct (Curve.validate (mkpoint _ _)) eqn:Hv; cbn [negb];
    [|discriminate].
  intros [= <-]. exact Hv.
Qed.

Lemma pubFromBytes_on_curve_witness :
  Curve.validate (Aff 0 y_at_0) = true.
Proof.
  apply (pubFromBytes_on_curve
           (([4] ++ BN.be_bytes 32 0) ++ BN.be_bytes 32 y_at_0)).
  - left. reflexivity.
  - vm_compute. reflexivity.
Defined.

End PublicKeyCodec.

(* ================================================================= *)
(** * Key pairs, signing and verification *)

Section KeyPairs.

Import Curve SM2.

Lemma validate_pri_out_of_range (P : point) (d : Z) :
  d = 0 \/ d > n - 2 ->
  validate (mkKeyPair (Some P) (Some d)) = false.
Proof.
  intros Hd. unfold validate. cbn [pub pri].
  destruct (isInfinity P) eqn:HI; [reflexivity|].
  destruct (negb (Curve.validate P)); [reflexivity|].
  destruct (negb (isInfinity (mul P n))); [reflexivity|].
  destruct (Z.gtb_spec d (n - 2)) as [?|Hle]; [reflexivity|].
  destruct Hd as [->|?]; [|lia].
  cbn [mul]. destruct P; [discriminate|]. reflexivity.
Qed.

(** A private key 0 or above [n - 2] makes the constructor throw, unless
    both arguments are native objects; the key 0 is caught because
    [[0]G] is the point at infinity. *)
Theorem create_rejects_private_out_of_range
        (a0 : pub_arg) (b0 : pri_arg) (d : Z) (vd : bool) :
  (forall x y d', ~ (a0 = PubPoint x y /\ b0 = PriBN d')) ->
  read_pri b0 = Ok (Some d, vd) ->
  d = 0 \/ d > n - 2 ->
  exists e, create a0 b0 = Throw e.
Proof.
  intros Hnat Hpri Hd. unfold create.
  destruct (read_pub a0) as [[op vp]|e] eqn:Ep; cbn [bind];
    [|exists e; reflexivity].
  rewrite Hpri. cbn [bind fst snd].
  assert (Hflags : vp && vd = false).
  { destruct vp; [|reflexivity]. destruct vd; [|reflexivity].
    destruct (read_pub_flag _ _ Ep) as [x [y Ha]].
    destruct (read_pri_flag _ _ Hpri) as [d' Hb].
    exfalso. apply (Hnat x y d'). split; assumption. }
  rewrite Hflags. cbn [negb].
  destruct vp; [eexists; reflexivity|].
  destruct op as [P|]; cbn [derive_pub];
    rewrite validate_pri_out_of_range by exact Hd;
    cbn [negb]; eexists; reflexivity.
Qed.

Lemma create_rejects_private_out_of_range_witness :
  exists e, create PubAbsent (PriString "0") = Throw e.
Proof.
  apply (create_rejects_private_out_of_range PubAbsent (PriString "0") 0 false).
  - intros x y d' [H _]. discriminate H.
  - reflexivity.
  - left. reflexivity.
Defined.

(** [verifyDigest] returns false, without touching the curve, when [r] or
    [s] is not below [n] and when [r + s] is a multiple of [n]. *)
Theorem verifyDigest_rejects (kp : KeyPair) (digest : list Z) (r s : string) :
  n <= BN.of_hex r \/ n <= BN.of_hex s \/
  (BN.of_hex r + BN.of_hex s) mod n = 0 ->
  verifyDigest kp digest r s = Ok false.
Proof.
  intros H. unfold verifyDigest.
  destruct (Z.geb_spec (BN.of_hex r) n) as [Hr|Hr]; [reflexivity|].
  destruct (Z.geb_spec (BN.of_hex s) n) as [Hs|Hs]; [reflexivity|].
  destruct (Z.eqb_spec ((BN.of_hex r + BN.of_hex s) mod n) 0) as [Ht|Ht];
    [reflexivity|].
  lia.
Qed.

Lemma verifyDigest_rejects_witness :
  verifyDigest (mkKeyPair None None) [] "0" "0" = Ok false.
Proof.
  apply verifyDigest_rejects. right. right. reflexivity.
Defined.

(** The public key of the private key 107. *)
Lemma pub_107_is_107_G : mul g 107 = pub_107.
Proof. vm_compute. reflexivity. Qed.

(** *** The signing loop *)

Lemma bn_toString16_default (v : Z) :
  0 <= v -> BN.of_hex (BN.toString16 v 0) = v.
Proof.
  intros Hv. unfold BN.toString16. change (0 =? 0) with true. cbv iota.
  destruct (Z.ltb_spec v 0); [lia|].
  rewrite Z.abs_eq by lia.
  change (Z.to_nat 1) with 1%nat. cbn [BN.pad_loop].
  rewrite Z.mod_1_r. change (0 =? 0) with true. cbv iota.
  apply of_hex_toString16. exact Hv.
Qed.

(** Every signature that [signDigest] returns has [r] and [s] in
    [1, n-1], as hex strings that read back as these values, and at
    least one draw of the generator was used. *)
Theorem signDigest_bounds (fuel : nat) (kp : KeyPair) (digest : list Z)
        (rng : drbg) :
  forall (i j : nat) (sig : signature),
    signDigest_loop fuel kp digest rng i = Some (Ok (sig, j)) ->
    1 <= BN.of_hex (sig_r sig) <= n - 1 /\
    1 <= BN.of_hex (sig_s sig) <= n - 1 /\
    (i < j)%nat.
Proof.
  assert (Hn : 0 < n) by reflexivity.
  induction fuel as [|fuel IH]; intros i j sig H; cbn [signDigest_loop] in H.
  - discriminate.
  - set (k := BN.of_hex (generate_hex rng i) mod n) in *.
    destruct (getX (mul g k)) as [x1|e]; [|discriminate].
    set (r := (hashToBN digest + x1) mod n) in *.
    assert (Hr : 0 <= r < n) by (apply Z.mod_pos_bound; exact Hn).
    assert (Hnext : forall sig' j',
              signDigest_loop fuel kp digest rng (S i) = Some (Ok (sig', j')) ->
              1 <= BN.of_hex (sig_r sig') <= n - 1 /\
              1 <= BN.of_hex (sig_s sig') <= n - 1 /\ (i < j')%nat).
    { intros sig' j' H'. destruct (IH _ _ _ H') as [? [? ?]].
      repeat split; lia. }
    destruct (Z.eqb_spec r 0) as [?|Hr0]; [apply Hnext; exact H|].
    destruct (r + k =? n); [apply Hnext; exact H|].
    destruct (pri kp) as [d|]; [|discriminate].
    set (s := (BN.invm (1 + d) n * ((k - r * d) mod n)) mod n) in *.
    assert (Hs : 0 <= s < n) by (apply Z.mod_pos_bound; exact Hn).
    destruct (Z.eqb_spec s 0) as [?|Hs0]; cbn [negb] in H;
      [apply Hnext; exact H|].
    injection H as <- <-. cbn [sig_r sig_s].
    rewrite !bn_toString16_default by lia. repeat split; lia.
Qed.

Lemma signDigest_bounds_witness :
  1 <= BN.of_hex
         "32c4ae2c1f1981195f9904466a39c9948fe30bbff2660be1715a4589334c74c7"
    <= n - 1.
Proof.
  exact (proj1 (signDigest_bounds 1 (mkKeyPair (Some g) (Some 1))
                  (repeat 0 32) (fun _ => repeat 0 31 ++ [1]) 0 1
                  (mkSig "32c4ae2c1f1981195f9904466a39c9948fe30bbff2660be1715a4589334c74c7"
                         "e69da8e8f0733f7350337ddccae31b352a12598b2892ff3a9b0ed144a02f06c0")
                  ltac:(vm_compute; reflexivity))).
Defined.

(** *** Key generation *)

Lemma concat_cons (x : string) (xs : list string) :
  String.concat "" (x :: xs) = (x ++ String.concat "" xs)%string.
Proof.
  destruct xs as [|y ys]; cbn [String.concat].
  - rewrite append_nil_r. reflexivity.
  - reflexivity.
Qed.

Lemma zero2_spec (b0 : Z) :
  is_byte b0 ->
  all_lower_hex (zero2 b0) = true /\ slen (zero2 b0) = 2.
Proof.
  intros Hb.
  assert (Hall : forallb (fun k =>
            let s := zero2 (Z.of_nat k) in
            all_lower_hex s && (slen s =? 2)) (seq 0 256) = true)
    by (vm_compute; reflexivity).
  rewrite forallb_forall in Hall.
  specialize (Hall (Z.to_nat b0)).
  assert (Hin : In (Z.to_nat b0) (seq 0 256))
    by (apply in_seq; unfold is_byte in Hb; lia).
  specialize (Hall Hin). cbv zeta in Hall.
  rewrite Z2Nat.id in Hall by (unfold is_byte in Hb; lia).
  apply andb_true_iff in Hall. destruct Hall as [H1 H2].
  split; [exact H1 | apply Z.eqb_eq; exact H2].
Qed.

(** The text that the generator hands out: two hex characters per byte. *)
Lemma generate_hex_spec (rng : drbg) (i : nat) :
  Forall is_byte (rng i) ->
  all_lower_hex (generate_hex rng i) = true /\
  slen (generate_hex rng i) = 2 * JS.len (rng i).
Proof.
  unfold generate_hex. induction 1 as [|b0 bs Hb _ [IH1 IH2]].
  - split; reflexivity.
  - cbn [map]. rewrite concat_cons.
    destruct (zero2_spec b0 Hb) as [Hz1 Hz2].
    rewrite all_lower_hex_append, slen_append, Hz1, IH1, Hz2, IH2.
    split; [reflexivity|]. unfold JS.len. cbn [List.length]. lia.
Qed.

(** Read in base ten, a text of hex characters stays below twice the
    power of ten of its length. *)
Lemma digits_base_ten_bound (s : string) :
  all_lower_hex s = true ->
  forall acc, 0 <= acc ->
  0 <= BN.digits BN.base_val 10 s acc <= (acc + 2) * 10 ^ slen s - 2.
Proof.
  induction s as [|c s IH]; cbn [all_lower_hex BN.digits]; intros H acc Ha.
  - change (slen "") with 0. change (10 ^ 0) with 1. lia.
  - apply andb_true_iff in H. destruct H as [Hc Hs].
    destruct (lower_hex_val c Hc) as [Hv [Hb _]]. rewrite Hb.
    specialize (IH Hs (acc * 10 + BN.hex_val c) ltac:(lia)).
    replace (slen (String c s)) with (slen s + 1)
      by (unfold slen; cbn [String.length]; lia).
    pose proof (slen_nonneg s).
    rewrite Z.pow_add_r by lia. change (10 ^ 1) with 10.
    assert (0 < 10 ^ slen s) by (apply Z.pow_pos_nonneg; lia).
    nia.
Qed.

(** [genKeyPair] never draws twice: the hex text of the first draw is
    read in base ten, which gives a private key below [2 * 10^64], far
    below [n - 2]. *)
Theorem genKeyPair_first_draw (fuel : nat) (rng : drbg) (i : nat) :
  Forall is_byte (rng i) -> List.length (rng i) = 32%nat ->
  exists d, genKeyPair_loop (S fuel) rng i = Some (d, S i) /\
            0 <= d < 2 * 10 ^ 64.
Proof.
  intros Hb Hl. destruct (generate_hex_spec rng i Hb) as [Hhex Hlen].
  unfold JS.len in Hlen. rewrite Hl in Hlen.
  exists (BN.of_dec (generate_hex rng i)).
  assert (Hd : 0 <= BN.of_dec (generate_hex rng i) < 2 * 10 ^ 64).
  { unfold BN.of_dec. rewrite (parse_hex_string _ _ _ Hhex).
    pose proof (digits_base_ten_bound _ Hhex 0 ltac:(lia)) as Hbound.
    rewrite Hlen in Hbound. change (2 * Z.of_nat 32) with 64 in Hbound.
    lia. }
  split; [|exact Hd].
  cbn [genKeyPair_loop].
  destruct (Z.gtb_spec (BN.of_dec (generate_hex rng i)) (n - 2)) as [Hgt|_];
    [|reflexivity].
  exfalso. assert (2 * 10 ^ 64 < n - 2) by reflexivity. lia.
Qed.

Lemma genKeyPair_first_draw_witness :
  exists d, genKeyPair_loop 1 (fun _ => repeat 255 32) 0 = Some (d, 1%nat) /\
            0 <= d < 2 * 10 ^ 64.
Proof.
  apply (genKeyPair_first_draw 0 (fun _ => repeat 255 32) 0).
  - cbn [repeat]. repeat (constructor; [unfold is_byte; lia|]). constructor.
  - reflexivity.
Defined.

End KeyPairs.

(* ================================================================= *)
(** * Words, rotations and the renderings of the digest *)

Section SM3Words.

Import JS SM3.

Lemma u32_small (a : Z) : 0 <= a < 2 ^ 32 -> u32 a = a.
Proof.
  intros Ha. unfold u32. change 0xffffffff with (Z.ones 32).
  rewrite Z.land_ones by lia. apply Z.mod_small. exact Ha.
Qed.

Lemma u32_range (a : Z) : 0 <= u32 a < 2 ^ 32.
Proof.
  unfold u32. change 0xffffffff with (Z.ones 32).
  rewrite Z.land_ones by lia. apply Z.mod_pos_bound. reflexivity.
Qed.

Lemma lor_disjoint (a b0 k : Z) :
  0 <= k -> a mod 2 ^ k = 0 -> 0 <= b0 < 2 ^ k -> Z.lor a b0 = a + b0.
Proof.
  intros Hk Ha Hb.
  assert (Hland : Z.land a b0 = 0).
  { apply Z.bits_inj'. intros i Hi. rewrite Z.land_spec, Z.bits_0.
    destruct (Z.lt_ge_cases i k) as [Hlt|Hge].
    - replace (Z.testbit a i) with false; [reflexivity|].
      symmetry. rewrite <- (Z.mod_pow2_bits_low a k i) by lia.
      rewrite Ha. apply Z.bits_0.
    - replace (Z.testbit b0 i) with false; [apply andb_false_r|].
      symmetry. rewrite <- (Z.mod_small b0 (2 ^ k)) by lia.
      apply Z.mod_pow2_bits_high. lia. }
  rewrite <- (Z.lxor_lor _ _ Hland). symmetry.
  apply Z.add_nocarry_lxor. exact Hland.
Qed.

(** [_rotl(x, n)] is the rotation of the 32-bit word [x] to the left by
    [n mod 32] places: the low bits move up and the bits pushed out at
    the top come back at the bottom.  A count that is a multiple of 32
    leaves the word as it is. *)
Theorem rotl_spec (x cnt : Z) :
  0 <= x < 2 ^ 32 -> 0 <= cnt ->
  _rotl x cnt
  = (x * 2 ^ (cnt mod 32)) mod 2 ^ 32 + x / 2 ^ (32 - cnt mod 32).
Proof.
  intros Hx Hc. unfold _rotl, shl, shru. cbv zeta.
  rewrite (u32_small x Hx), Z.mod_mod by lia.
  pose proof (Z.mod_pos_bound cnt 32 ltac:(lia)) as Hk.
  set (k := cnt mod 32) in *.
  destruct (Z.eq_dec k 0) as [Hk0|Hk0].
  - rewrite Hk0. change ((32 - 0) mod 32) with 0.
    rewrite Z.shiftl_0_r, Z.shiftr_0_r, (u32_small x Hx), Z.lor_diag.
    rewrite (u32_small x Hx). change (2 ^ 0) with 1.
    rewrite Z.mul_1_r, (Z.mod_small x) by exact Hx.
    change (2 ^ (32 - 0)) with (2 ^ 32). rewrite Z.div_small by exact Hx.
    lia.
  - rewrite (Z.mod_small (32 - k)) by lia.
    rewrite Z.shiftl_mul_pow2, Z.shiftr_div_pow2 by lia.
    unfold u32 at 2. change 0xffffffff with (Z.ones 32).
    rewrite Z.land_ones by lia.
    set (A := (x * 2 ^ k) mod 2 ^ 32). set (B := x / 2 ^ (32 - k)).
    assert (H2k : 0 < 2 ^ k) by (apply Z.pow_pos_nonneg; lia).
    assert (H2m : 0 < 2 ^ (32 - k)) by (apply Z.pow_pos_nonneg; lia).
    assert (Hsplit : 2 ^ 32 = 2 ^ (32 - k) * 2 ^ k).
    { rewrite <- Z.pow_add_r by lia. f_equal. lia. }
    assert (HB : 0 <= B < 2 ^ k).
    { unfold B. split; [apply Z.div_pos; lia|].
      apply Z.div_lt_upper_bound; [lia|]. rewrite <- Hsplit. lia. }
    assert (HA : 0 <= A < 2 ^ 32) by (apply Z.mod_pos_bound; reflexivity).
    assert (HAf : A = 2 ^ k * (x mod 2 ^ (32 - k))).
    { unfold A.
      replace (2 ^ 32) with (2 ^ k * 2 ^ (32 - k))
        by (rewrite <- Z.pow_add_r by lia; f_equal; lia).
      rewrite Z.rem_mul_r, Z.mod_mul, Z.div_mul by lia. lia. }
    assert (HAk : A mod 2 ^ k = 0).
    { rewrite HAf, Z.mul_comm. apply Z.mod_mul. lia. }
    rewrite (lor_disjoint A B k ltac:(lia) HAk HB).
    apply u32_small. split; [lia|].
    pose proof (Z.mod_pos_bound x (2 ^ (32 - k)) H2m) as Hm.
    rewrite HAf, Hsplit. nia.
Qed.

Lemma rotl_spec_witness :
  _rotl 0x80000001 33 = (0x80000001 * 2 ^ 1) mod 2 ^ 32 + 0x80000001 / 2 ^ 31.
Proof.
  apply (rotl_spec 0x80000001 33).
  - vm_compute. split; [discriminate | reflexivity].
  - lia.
Defined.

(** *** The registers behind the two renderings of the digest *)

Lemma xor_regs_state (v r : list Z) : is_state (xor_regs v r).
Proof.
  unfold is_state, xor_regs. split.
  - rewrite !length_map, length_seq. reflexivity.
  - apply Forall_map. apply Forall_forall. intros i _. apply u32_range.
Qed.

Lemma compress_reg_state (r m : list Z) : is_state (compress_reg r m).
Proof.
  unfold compress_reg.
  destruct (steps_ok (_expand m) _ rounds_in_range r) as [r' ->].
  apply xor_regs_state.
Qed.

Lemma compress_all_state (bs : list (list Z)) :
  Forall (fun b => array_lt b 64 = false) bs ->
  forall h, bs <> [] \/ is_state (reg h) ->
  exists r',
    fold_left (fun acc b => h <- acc ;; _compress h b) bs (Ok h)
    = Ok (mk r' (chunk h) (size h)) /\ is_state r'.
Proof.
  induction 1 as [|b bs Hb _ IH]; intros h Hst.
  - exists (reg h). destruct Hst as [Hne|Hst]; [congruence|].
    split; [destruct h; reflexivity | exact Hst].
  - cbn [fold_left bind]. rewrite (compress_ok h b Hb).
    destruct (IH (mk (compress_reg (reg h) b) (chunk h) (size h)))
      as [r' [E Hr']].
    + right. cbn [reg]. apply compress_reg_state.
    + exists r'. split; [exact E | exact Hr'].
Qed.

Lemma sum_falsy_registers (h : t) (msg : message) :
  truthy msg = false ->
  exists r, is_state r /\
            forall enc, sum h msg enc = Ok (render enc r, create).
Proof.
  intros Hf.
  destruct (fill_length h) as [k [Hk Hlen]].
  destruct (compress_all_state _ (blocks_ok _ k Hlen) (_fill h)) as [r' [E Hr']].
  { left. rewrite Hlen.
    replace ((64 * k + 63) / 64) with k
      by (apply (Z.div_unique _ 64 k 63); lia).
    destruct (Z.to_nat k) eqn:Ek; [lia|]. cbn [seq map]. discriminate. }
  exists r'. split; [exact Hr'|]. intros enc.
  unfold sum. rewrite Hf. cbn [bind]. rewrite E. reflexivity.
Qed.

Lemma sum_registers (h : t) (msg : message) :
  exists r, is_state r /\
            forall enc, sum h msg enc = Ok (render enc r, create).
Proof.
  destruct (truthy msg) eqn:Ht.
  - destruct (truthy_bytes msg Ht) as [m Hm].
    destruct (write_spec (reset h) msg m) as [r1 [rest [E _]]];
      [unfold len; simpl; lia | exact Hm |].
    destruct (sum_falsy_registers (mk r1 rest (size (reset h) + len m))
                MUndefined eq_refl) as [r [Hr Hsum]].
    exists r. split; [exact Hr|]. intros enc.
    rewrite (sum_unfold_truthy h msg enc Ht), E. cbn [bind]. apply Hsum.
  - apply sum_falsy_registers. exact Ht.
Qed.

(** The four bytes of a register in the default output are its
    big-endian bytes. *)
Lemma bytes_of_word_be (w : Z) :
  is_word w -> bytes_of_word w = BN.be_bytes 4 w.
Proof.
  unfold is_word. intros Hw. unfold bytes_of_word. cbv zeta.
  assert (Hsh : forall a, 0 <= a < 2 ^ 32 -> shru a 8 = a / 256).
  { intros a Ha. unfold shru. rewrite (u32_small a Ha).
    change (8 mod 32) with 8. rewrite Z.shiftr_div_pow2 by lia. reflexivity. }
  assert (Hm : forall a, u32 (Z.land a 0xff) = a mod 256).
  { intros a. change 0xff with (Z.ones 8). rewrite Z.land_ones by lia.
    apply u32_small. pose proof (Z.mod_pos_bound a (2 ^ 8) ltac:(lia)).
    change (2 ^ 8) with 256 in *. change (2 ^ 32) with 4294967296. lia. }
  assert (Hd : forall a, 0 <= a < 2 ^ 32 -> 0 <= a / 256 < 2 ^ 32).
  { intros a Ha. change (2 ^ 32) with 4294967296 in *.
    Z.to_euclidean_division_equations. lia. }
  rewrite !Hm, (Hsh w Hw), (Hsh (w / 256) (Hd _ Hw)),
    (Hsh (w / 256 / 256) (Hd _ (Hd _ Hw))).
  reflexivity.
Qed.

(** Both outputs of [sum] render the same eight 32-bit registers: the
    default output gives the four big-endian bytes of each, the output
    'hex' joins the [toString(16)] of each, without padding. *)
Theorem sum_renders_registers (h : t) (msg : message) :
  exists r,
    is_state r /\
    sum h msg None
      = Ok (DBytes (flat_map (BN.be_bytes 4) r), create) /\
    sum h msg (Some "hex")
      = Ok (DHex (String.concat "" (map toString16 r)), create).
Proof.
  destruct (sum_registers h msg) as [r [Hr Hsum]].
  exists r. split; [exact Hr|].
  rewrite (Hsum None), (Hsum (Some "hex")).
  destruct Hr as [Hlen Hw]. unfold render.
  destruct r as [|r0 [|r1 [|r2 [|r3 [|r4 [|r5 [|r6 [|r7 [|r8 r]]]]]]]]];
    try discriminate.
  repeat match goal with
         | H : Forall _ (_ :: _) |- _ =>
             let Hh := fresh "W" in
             apply Forall_cons_iff in H; destruct H as [Hh H]
         end.
  split.
  - change (is_hex None) with false. cbv iota.
    cbn [seq map flat_map]. unfold get. cbn [Z.ltb Z.compare Z.to_nat nth
      Pos.to_nat Pos.iter_op Nat.add Z.of_nat Pos.of_succ_nat Pos.succ].
    rewrite !bytes_of_word_be by assumption. reflexivity.
  - change (is_hex (Some "hex")) with true. cbv iota.
    cbn [seq map fold_left String.concat]. unfold get. cbn [Z.ltb Z.compare
      Z.to_nat nth Pos.to_nat Pos.iter_op Nat.add Z.of_nat Pos.of_succ_nat
      Pos.succ append].
    rewrite !append_assoc. reflexivity.
Qed.

Lemma sum_of_eight (l0 l1 l2 l3 l4 l5 l6 l7 : Z) :
  1 <= l0 <= 8 -> 1 <= l1 <= 8 -> 1 <= l2 <= 8 -> 1 <= l3 <= 8 ->
  1 <= l4 <= 8 -> 1 <= l5 <= 8 -> 1 <= l6 <= 8 -> 1 <= l7 <= 8 ->
  8 <= l0 + (l1 + (l2 + (l3 + (l4 + (l5 + (l6 + (l7 + 0))))))) <= 64 /\
  (l0 + (l1 + (l2 + (l3 + (l4 + (l5 + (l6 + (l7 + 0))))))) = 64 <->
   l0 = 8 /\ l1 = 8 /\ l2 = 8 /\ l3 = 8 /\ l4 = 8 /\ l5 = 8 /\ l6 = 8 /\
   l7 = 8 /\ Forall (fun w => 2 ^ 28 <= w) nil).
Proof.
  intros. split; [lia|]. split.
  - intros E. repeat (split; [lia|]). apply Forall_nil.
  - intros [-> [-> [-> [-> [-> [-> [-> [-> _]]]]]]]]. reflexivity.
Qed.

Lemma word_hex_length (w : Z) :
  is_word w ->
  1 <= SM2.slen (toString16 w) <= 8 /\
  (SM2.slen (toString16 w) = 8 <-> 2 ^ 28 <= w).
Proof.
  unfold is_word. intros Hw.
  destruct (toString16_spec w (proj1 Hw)) as [_ [Hpos [_ Hr]]].
  destruct (Z.eq_dec w 0) as [->|Hnz].
  - change (SM2.slen (toString16 0)) with 1.
    split; [lia|]. split; [lia|]. intros H. exfalso.
    assert (0 < 2 ^ 28) by reflexivity. lia.
  - destruct (Hr ltac:(lia)) as [Hlo Hhi].
    set (L := SM2.slen (toString16 w)) in *.
    assert (H8 : L <= 8).
    { assert (H : 16 ^ (L - 1) < 16 ^ 8)
        by (change (16 ^ 8) with (2 ^ 32); lia).
      apply Z.pow_lt_mono_r_iff in H; lia. }
    split; [lia|]. split.
    + intros E. rewrite E in Hlo. change (16 ^ (8 - 1)) with (2 ^ 28) in Hlo.
      exact Hlo.
    + intros Hbig.
      assert (H : 16 ^ 7 < 16 ^ L) by (change (16 ^ 7) with (2 ^ 28); lia).
      apply Z.pow_lt_mono_r_iff in H; lia.
Qed.

(** The output 'hex' of [sum] has between 8 and 64 characters, and it has
    64 exactly when each of the eight registers is at least [2^28]: a
    register with a leading zero hex digit shortens the string. *)
Theorem sum_hex_length (h : t) (msg : message) :
  exists r s,
    is_state r /\
    sum h msg None = Ok (DBytes (flat_map (BN.be_bytes 4) r), create) /\
    sum h msg (Some "hex") = Ok (DHex s, create) /\
    8 <= SM2.slen s <= 64 /\
    (SM2.slen s = 64 <-> Forall (fun w => 2 ^ 28 <= w) r).
Proof.
  destruct (sum_registers h msg) as [r [Hr Hsum]].
  exists r, (String.concat "" (map toString16 r)).
  split; [exact Hr|].
  rewrite (Hsum None), (Hsum (Some "hex")).
  destruct Hr as [Hlen Hw]. unfold render.
  destruct r as [|r0 [|r1 [|r2 [|r3 [|r4 [|r5 [|r6 [|r7 [|r8 r]]]]]]]]];
    try discriminate.
  repeat match goal with
         | H : Forall _ (_ :: _) |- _ =>
             let Hh := fresh "W" in
             apply Forall_cons_iff in H; destruct H as [Hh H]
         end.
  split; [|split].
  - change (is_hex None) with false. cbv iota.
    cbn [seq map flat_map]. unfold get. cbn [Z.ltb Z.compare Z.to_nat nth
      Pos.to_nat Pos.iter_op Nat.add Z.of_nat Pos.of_succ_nat Pos.succ].
    rewrite !bytes_of_word_be by assumption. reflexivity.
  - change (is_hex (Some "hex")) with true. cbv iota.
    cbn [seq map fold_left String.concat]. unfold get. cbn [Z.ltb Z.compare
      Z.to_nat nth Pos.to_nat Pos.iter_op Nat.add Z.of_nat Pos.of_succ_nat
      Pos.succ append].
    rewrite !append_assoc. reflexivity.
  - cbn [map]. rewrite !concat_cons. cbn [String.concat].
    rewrite !slen_append. change (SM2.slen "") with 0.
    destruct (word_hex_length r0 W) as [B0 I0].
    destruct (word_hex_length r1 W0) as [B1 I1].
    destruct (word_hex_length r2 W1) as [B2 I2].
    destruct (word_hex_length r3 W2) as [B3 I3].
    destruct (word_hex_length r4 W3) as [B4 I4].
    destruct (word_hex_length r5 W4) as [B5 I5].
    destruct (word_hex_length r6 W5) as [B6 I6].
    destruct (word_hex_length r7 W6) as [B7 I7].
    rewrite !Forall_cons_iff, <- I0, <- I1, <- I2, <- I3, <- I4, <- I5,
      <- I6, <- I7.
    clear I0 I1 I2 I3 I4 I5 I6 I7 W W0 W1 W2 W3 W4 W5 W6 Hw Hlen Hsum.
    generalize dependent (SM2.slen (toString16 r0)).
    generalize dependent (SM2.slen (toString16 r1)).
    generalize dependent (SM2.slen (toString16 r2)).
    generalize dependent (SM2.slen (toString16 r3)).
    generalize dependent (SM2.slen (toString16 r4)).
    generalize dependent (SM2.slen (toString16 r5)).
    generalize dependent (SM2.slen (toString16 r6)).
    generalize dependent (SM2.slen (toString16 r7)).
    intros l7 B7 l6 B6 l5 B5 l4 B4 l3 B3 l2 B2 l1 B1 l0 B0.
    apply sum_of_eight; assumption.
Qed.

End SM3Words.

(* ================================================================= *)
(** * The helpers around the hash: sm3Digest and _combine *)

Section Helpers.

Import JS SM3 Curve SM2.

Lemma digits_acc (val : ascii -> Z) (base : Z) (s : string) :
  forall acc,
    BN.digits val base s acc
    = acc * base ^ slen s + BN.digits val base s 0.
Proof.
  induction s as [|c s IH]; intros acc; cbn [BN.digits].
  - change (slen "") with 0. rewrite Z.pow_0_r. lia.
  - rewrite IH, (IH (0 * base + val c)).
    replace (slen (String c s)) with (slen s + 1)
      by (unfold slen; cbn [String.length]; lia).
    rewrite Z.pow_add_r, Z.pow_1_r by (pose proof (slen_nonneg s); lia).
    ring.
Qed.

Lemma byte_hex_spec (b0 : Z) :
  is_byte b0 ->
  all_lower_hex (byte_hex b0) = true /\ slen (byte_hex b0) = 2 /\
  BN.digits BN.hex_val 16 (byte_hex b0) 0 = b0.
Proof.
  intros Hb.
  assert (Hall : forallb (fun k =>
            let s := byte_hex (Z.of_nat k) in
            all_lower_hex s && (slen s =? 2) &&
            (BN.digits BN.hex_val 16 s 0 =? Z.of_nat k)) (seq 0 256) = true)
    by (vm_compute; reflexivity).
  rewrite forallb_forall in Hall.
  specialize (Hall (Z.to_nat b0)).
  assert (Hin : In (Z.to_nat b0) (seq 0 256))
    by (apply in_seq; unfold is_byte in Hb; lia).
  specialize (Hall Hin). cbv zeta in Hall.
  rewrite Z2Nat.id in Hall by (unfold is_byte in Hb; lia).
  apply andb_true_iff in Hall. destruct Hall as [Hall H3].
  apply andb_true_iff in Hall. destruct Hall as [H1 H2].
  split; [exact H1|]. split; apply Z.eqb_eq; assumption.
Qed.

(** Two hex characters per byte, the bytes in order. *)
Lemma bytes_hex_spec (bs : list Z) :
  Forall is_byte bs ->
  all_lower_hex (String.concat "" (map byte_hex bs)) = true /\
  slen (String.concat "" (map byte_hex bs)) = 2 * len bs /\
  BN.digits BN.hex_val 16 (String.concat "" (map byte_hex bs)) 0
  = BN.of_bytes bs.
Proof.
  induction 1 as [|b0 bs Hb _ [IH1 [IH2 IH3]]].
  - repeat split; reflexivity.
  - cbn [map]. rewrite concat_cons.
    destruct (byte_hex_spec b0 Hb) as [Hh [Hl Hd]].
    rewrite all_lower_hex_append, slen_append, digits_append, Hh, IH1, Hl, IH2.
    split; [reflexivity|]. split.
    + unfold len. cbn [List.length]. lia.
    + rewrite Hd, digits_acc, IH3, IH2.
      unfold BN.of_bytes at 2. cbn [fold_left].
      rewrite of_bytes_acc.
      replace (16 ^ (2 * len bs)) with (256 ^ len bs); [lia|].
      rewrite Z.pow_mul_r by (pose proof (len_nonneg bs); lia).
      reflexivity.
Qed.

(** [sm3Digest] returns 64 lowercase hex characters which read as the
    number that the 32 bytes of the digest spell in big-endian order: no
    leading zero is lost. *)
Theorem sm3Digest_hex (msg : list Z) :
  exists bs s,
    sum SM3.create (MArray msg) None = Ok (DBytes bs, SM3.create) /\
    sm3Digest msg = Ok s /\
    slen s = 64 /\ all_lower_hex s = true /\
    BN.of_hex s = BN.of_bytes bs.
Proof.
  destruct (sum_bytes_32 SM3.create (MArray msg)) as [bs [E [Hl Hb]]].
  exists bs, (String.concat "" (map byte_hex bs)).
  destruct (bytes_hex_spec bs Hb) as [H1 [H2 H3]].
  split; [exact E|]. split; [unfold sm3Digest; rewrite E; reflexivity|].
  split; [rewrite H2; unfold len; rewrite Hl; reflexivity|].
  split; [exact H1|].
  unfold BN.of_hex. rewrite (parse_hex_string _ _ _ H1). exact H3.
Qed.

(** [_combine] puts 32 bytes in front of the message, the digest [Z_A],
    which depends on the key pair alone; the message follows unchanged,
    be it given as a string or as its bytes. *)
Theorem combine_shape (kp : KeyPair) (x y : Z) :
  pub kp = Some (Aff x y) ->
  exists za,
    List.length za = 32%nat /\ Forall is_byte za /\
    forall msg m, bytes_of msg = Ok m -> _combine kp msg = Ok (za ++ m).
Proof.
  intros Hpub.
  assert (Hin : exists l, za_input kp = Ok l).
  { unfold za_input, the_pub. rewrite Hpub. cbn [getX getY g bind].
    destruct (toArray_default a) as [la [-> _]].
    destruct (toArray_default b) as [lb [-> _]].
    destruct (toArray_default gx) as [lgx [-> _]].
    destruct (toArray_default gy) as [lgy [-> _]].
    destruct (toArray_default x) as [lx [-> _]].
    destruct (toArray_default y) as [ly [-> _]].
    cbn [bind]. eexists. reflexivity. }
  destruct Hin as [l Hl].
  destruct (sum_bytes_32 SM3.create (MArray l)) as [za [E [Hlen Hb]]].
  exists za. split; [exact Hlen|]. split; [exact Hb|].
  intros msg m Hm. unfold _combine. rewrite Hl. cbn [bind].
  unfold sm3_sum. rewrite E. cbn [bind fst].
  destruct msg as [|s0|m0]; cbn [bytes_of] in Hm.
  - discriminate.
  - injection Hm as <-. reflexivity.
  - injection Hm as <-. reflexivity.
Qed.

Lemma combine_shape_witness :
  exists za,
    List.length za = 32%nat /\ Forall is_byte za /\
    forall msg m, bytes_of msg = Ok m ->
                  _combine (mkKeyPair (Some g) None) msg = Ok (za ++ m).
Proof.
  apply (combine_shape (mkKeyPair (Some g) None) gx gy). reflexivity.
Defined.

(** *** priToPub *)

Lemma buffer_from_hex_spec (k : nat) :
  forall h, String.length h = (2 * k)%nat -> all_lower_hex h = true ->
  List.length (buffer_from_hex h) = k /\
  BN.of_bytes (buffer_from_hex h) = BN.digits BN.hex_val 16 h 0.
Proof.
  induction k as [|k IH]; intros h Hl Hh.
  - destruct h; [|discriminate]. split; reflexivity.
  - destruct h as [|c1 [|c2 h]]; cbn [String.length] in Hl; try lia.
    cbn [all_lower_hex] in Hh.
    apply andb_true_iff in Hh. destruct Hh as [H1 Hh].
    apply andb_true_iff in Hh. destruct Hh as [H2 Hh].
    destruct (IH h ltac:(lia) Hh) as [IHl IHv].
    cbn [buffer_from_hex]. unfold hex_char. rewrite H1, H2. cbn [orb andb].
    split; [cbn [List.length]; rewrite IHl; reflexivity|].
    unfold BN.of_bytes. cbn [fold_left BN.digits].
    rewrite of_bytes_acc, IHv, (digits_acc _ _ h (_ + _)).
    replace (slen h) with (2 * len (buffer_from_hex h))
      by (unfold slen, len; rewrite IHl; lia).
    rewrite Z.pow_mul_r by (pose proof (len_nonneg (buffer_from_hex h)); lia).
    change (16 ^ 2) with 256. lia.
Qed.

Lemma toString16_length_256 (v : Z) :
  0 <= v < 2 ^ 256 -> (0 < String.length (toString16 v) <= 64)%nat.
Proof.
  intros Hv. destruct (toString16_spec v (proj1 Hv)) as [_ [Hpos [_ Hr]]].
  unfold slen in *. split; [lia|].
  destruct (Z.eq_dec v 0) as [->|Hnz]; [vm_compute; lia|].
  destruct (Hr ltac:(lia)) as [Hlo _].
  assert (H : 16 ^ (Z.of_nat (String.length (toString16 v)) - 1) < 16 ^ 64)
    by (change (16 ^ 64) with (2 ^ 256); lia).
  apply Z.pow_lt_mono_r_iff in H; lia.
Qed.

(** [priToPub] returns 64 bytes.  Read as one big-endian number they are
    [x * 16^L + y], where [L] is the number of hex digits of [y]: the
    zeros that [padStart] adds go in front of [x], so the bytes are
    [X || Y] when [y] has all its 64 hex digits, and are not when [y]
    has a leading zero digit (and [x] is not 0). *)
Theorem priToPub_value (kp : KeyPair) (x y : Z) :
  pub kp = Some (Aff x y) ->
  0 <= x < 2 ^ 256 -> 0 <= y < 2 ^ 256 ->
  exists bs,
    priToPub kp = Ok bs /\ List.length bs = 64%nat /\
    BN.of_bytes bs = x * 16 ^ slen (toString16 y) + y /\
    (2 ^ 252 <= y -> BN.of_bytes bs = x * 2 ^ 256 + y) /\
    (y < 2 ^ 252 -> 0 < x -> BN.of_bytes bs < x * 2 ^ 256 + y).
Proof.
  intros Hpub Hx Hy.
  assert (Hdef : forall v, 0 <= v -> BN.toString16 v 0 = toString16 v).
  { intros v Hv. unfold BN.toString16. change (0 =? 0) with true. cbv iota.
    destruct (Z.ltb_spec v 0); [lia|]. rewrite Z.abs_eq by lia.
    change (Z.to_nat 1) with 1%nat. cbn [BN.pad_loop].
    rewrite Z.mod_1_r. reflexivity. }
  unfold priToPub, the_pub. rewrite Hpub. cbn [bind getX getY]. cbv zeta.
  rewrite (Hdef x (proj1 Hx)), (Hdef y (proj1 Hy)).
  destruct (toString16_spec x (proj1 Hx)) as [Hhx [_ [Hdx _]]].
  destruct (toString16_spec y (proj1 Hy)) as [Hhy [_ [Hdy Hry]]].
  pose proof (toString16_length_256 x Hx) as Lx.
  pose proof (toString16_length_256 y Hy) as Ly.
  set (hx := toString16 x) in *. set (hy := toString16 y) in *.
  assert (Hlen : String.length (hx ++ hy) = (String.length hx + String.length hy)%nat).
  { pose proof (slen_append hx hy) as H. unfold slen in H. lia. }
  set (padded := if (String.length (hx ++ hy) =? 128)%nat then (hx ++ hy)%string
                 else padStart (hx ++ hy) 128).
  assert (Hp : exists k, padded = (zeros k ++ (hx ++ hy))%string /\
                         String.length padded = 128%nat).
  { unfold padded. destruct (Nat.eqb_spec (String.length (hx ++ hy)) 128) as [E|E].
    - exists 0%nat. split; [reflexivity | exact E].
    - exists (128 - String.length (hx ++ hy))%nat. split; [reflexivity|].
      unfold padStart.
      pose proof (slen_append (zeros (128 - String.length (hx ++ hy))) (hx ++ hy)) as H.
      assert (Hz : forall j, String.length (zeros j) = j)
        by (induction j; cbn [zeros String.length]; congruence).
      unfold slen in H. rewrite Hz in H. lia. }
  destruct Hp as [k [Epad Lpad]].
  assert (Hall : all_lower_hex padded = true).
  { rewrite Epad, !all_lower_hex_append, Hhx, Hhy.
    destruct (zeros_hex k) as [-> _]. reflexivity. }
  destruct (buffer_from_hex_spec 64 padded Lpad Hall) as [Bl Bv].
  exists (buffer_from_hex padded).
  assert (Hval : BN.of_bytes (buffer_from_hex padded) = x * 16 ^ slen hy + y).
  { rewrite Bv, Epad, !digits_append.
    destruct (zeros_hex k) as [_ Hz]. rewrite (Hz BN.hex_val 16 eq_refl).
    rewrite Hdx, Hdy. lia. }
  split; [reflexivity|]. split; [exact Bl|]. split; [exact Hval|].
  assert (H16 : 0 < 16 ^ slen hy)
    by (apply Z.pow_pos_nonneg; [lia | apply slen_nonneg]).
  split.
  - intros Hbig. rewrite Hval.
    assert (H0 : 0 < y) by (assert (0 < 2 ^ 252) by reflexivity; lia).
    destruct (Hry H0) as [_ Hhi].
    assert (H1 : 16 ^ 63 < 16 ^ slen hy)
      by (change (16 ^ 63) with (2 ^ 252); lia).
    apply Z.pow_lt_mono_r_iff in H1; [|lia|apply slen_nonneg].
    assert (slen hy = 64) by (unfold slen in *; lia).
    replace (slen hy) with 64 by lia. reflexivity.
  - intros Hsmall Hxpos. rewrite Hval.
    assert (Hle : slen hy <= 63).
    { destruct (Z.eq_dec y 0) as [Hy0|Hy0].
      - unfold hy. rewrite Hy0. vm_compute. discriminate.
      - destruct (Hry ltac:(lia)) as [Hlo _].
        assert (H1 : 16 ^ (slen hy - 1) < 16 ^ 63)
          by (change (16 ^ 63) with (2 ^ 252); lia).
        apply Z.pow_lt_mono_r_iff in H1; lia. }
    assert (H2 : 16 ^ slen hy <= 16 ^ 63)
      by (apply Z.pow_le_mono_r; lia).
    change (16 ^ 63) with (2 ^ 252) in H2.
    change (2 ^ 256) with (16 * 2 ^ 252).
    assert (0 < 2 ^ 252) by reflexivity. nia.
Qed.

Lemma priToPub_value_witness :
  exists bs,
    priToPub (mkKeyPair (Some pub_107) (Some 107)) = Ok bs /\
    List.length bs = 64%nat /\
    BN.of_bytes bs < x_107 * 2 ^ 256 + y_107.
Proof.
  destruct (priToPub_value (mkKeyPair (Some pub_107) (Some 107)) x_107 y_107
              eq_refl
              ltac:(vm_compute; split; [discriminate | reflexivity])
              ltac:(vm_compute; split; [discriminate | reflexivity]))
    as [bs [E [Hl [_ [_ Hlt]]]]].
  exists bs. split; [exact E|]. split; [exact Hl|].
  apply Hlt; vm_compute; reflexivity.
Defined.

(** *** signRS *)

Lemma zeros_length (k : nat) : String.length (zeros k) = k.
Proof. induction k; cbn [zeros String.length]; congruence. Qed.

Lemma zeros_add (j k : nat) : zeros (j + k) = (zeros j ++ zeros k)%string.
Proof. induction j; cbn [zeros Nat.add append]; congruence. Qed.

(** The last 64 characters of 21 zeros followed by a hex number of 43 to
    64 digits are the number left-padded to 64 digits, that is 32
    bytes. *)
Lemma pad64_spec (hs : string) :
  all_lower_hex hs = true ->
  (43 <= String.length hs <= 64)%nat ->
  let t := substr ("000000000000000000000" ++ hs)
                  (slen ("000000000000000000000" ++ hs) - 64) 64 in
  List.length (buffer_from_hex t) = 32%nat /\
  BN.of_bytes (buffer_from_hex t) = BN.digits BN.hex_val 16 hs 0.
Proof.
  intros Hh Hl. cbv zeta.
  set (j := (String.length hs - 43)%nat). set (k := (64 - String.length hs)%nat).
  assert (Hz : "000000000000000000000" = (zeros j ++ zeros k)%string).
  { rewrite <- zeros_add. replace (j + k)%nat with 21%nat by (unfold j, k; lia).
    reflexivity. }
  assert (Hn : slen ("000000000000000000000" ++ hs) = 21 + slen hs).
  { rewrite slen_append. reflexivity. }
  assert (Hlen : String.length (zeros k ++ hs) = (2 * 32)%nat).
  { pose proof (slen_append (zeros k) hs) as H1. unfold slen in H1.
    rewrite zeros_length in H1. unfold k in *. lia. }
  assert (Hsub : substr ("000000000000000000000" ++ hs)
                        (slen ("000000000000000000000" ++ hs) - 64) 64
                 = (zeros k ++ hs)%string).
  { unfold substr. rewrite Hn.
    set (st := 21 + slen hs - 64).
    assert (Hst : 0 <= st /\ Z.to_nat st = j)
      by (unfold st, slen, j; lia).
    destruct Hst as [Hst0 Hstj].
    destruct (Z.ltb_spec st 0); [lia|].
    rewrite Z.min_l by (unfold st; lia). rewrite Hstj.
    rewrite Hz, append_assoc.
    rewrite (substring_skip (zeros j) _ j 64 (zeros_length j)).
    apply substring_whole. exact Hlen. }
  rewrite Hsub.
  assert (Hall : all_lower_hex (zeros k ++ hs) = true).
  { rewrite all_lower_hex_append, Hh. destruct (zeros_hex k) as [-> _].
    reflexivity. }
  destruct (buffer_from_hex_spec 32 _ Hlen Hall) as [Bl Bv].
  split; [exact Bl|]. rewrite Bv, digits_append.
  destruct (zeros_hex k) as [_ Hz0]. rewrite (Hz0 BN.hex_val 16 eq_refl).
  reflexivity.
Qed.

Lemma signDigest_loop_values (fuel : nat) (kp : KeyPair) (digest : list Z)
      (rng : drbg) :
  forall (i j : nat) (sig : signature),
    signDigest_loop fuel kp digest rng i = Some (Ok (sig, j)) ->
    exists rv sv,
      sig = mkSig (toString16 rv) (toString16 sv) /\
      1 <= rv <= n - 1 /\ 1 <= sv <= n - 1.
Proof.
  assert (Hn : 0 < n) by reflexivity.
  assert (Hdef : forall v, 0 <= v -> BN.toString16 v 0 = toString16 v).
  { intros v Hv. unfold BN.toString16. change (0 =? 0) with true. cbv iota.
    destruct (Z.ltb_spec v 0); [lia|]. rewrite Z.abs_eq by lia.
    change (Z.to_nat 1) with 1%nat. cbn [BN.pad_loop].
    rewrite Z.mod_1_r. reflexivity. }
  induction fuel as [|fuel IH]; intros i j sig H; cbn [signDigest_loop] in H.
  - discriminate.
  - set (k := BN.of_hex (generate_hex rng i) mod n) in *.
    destruct (getX (mul g k)) as [x1|e]; [|discriminate].
    set (r := (hashToBN digest + x1) mod n) in *.
    assert (Hr : 0 <= r < n) by (apply Z.mod_pos_bound; exact Hn).
    destruct (Z.eqb_spec r 0) as [?|Hr0]; [apply (IH _ _ _ H)|].
    destruct (r + k =? n); [apply (IH _ _ _ H)|].
    destruct (pri kp) as [d|]; [|discriminate].
    set (s := (BN.invm (1 + d) n * ((k - r * d) mod n)) mod n) in *.
    assert (Hs : 0 <= s < n) by (apply Z.mod_pos_bound; exact Hn).
    destruct (Z.eqb_spec s 0) as [?|Hs0]; cbn [negb] in H;
      [apply (IH _ _ _ H)|].
    injection H as <- <-. exists r, s.
    rewrite !Hdef by lia. split; [reflexivity|]. lia.
Qed.

Lemma big_hex_length (v : Z) :
  16 ^ 42 <= v < 2 ^ 256 -> (43 <= String.length (toString16 v) <= 64)%nat.
Proof.
  intros Hv. assert (H0 : 0 < 16 ^ 42) by reflexivity.
  destruct (toString16_spec v ltac:(lia)) as [_ [_ [_ Hr]]].
  destruct (Hr ltac:(lia)) as [Hlo Hhi]. unfold slen in *.
  assert (H1 : 16 ^ 42 < 16 ^ Z.of_nat (String.length (toString16 v))) by lia.
  apply Z.pow_lt_mono_r_iff in H1; [|lia|lia].
  assert (H2 : 16 ^ (Z.of_nat (String.length (toString16 v)) - 1) < 16 ^ 64)
    by (change (16 ^ 64) with (2 ^ 256); lia).
  apply Z.pow_lt_mono_r_iff in H2; lia.
Qed.

(** When [sign] returns a signature whose [r] and [s] have at least 43
    hex digits, [signRS] returns each of them as 32 bytes that spell the
    same number in big-endian order; its public-key buffer is the one of
    [priToPub]. *)
Theorem signRS_buffers (fuel : nat) (kp : KeyPair) (msg : list Z)
        (rng : drbg) (i j : nat) (sig : signature) (x y : Z) :
  pub kp = Some (Aff x y) ->
  sign fuel kp (MArray msg) rng i = Some (Ok (sig, j)) ->
  16 ^ 42 <= BN.of_hex (sig_r sig) -> 16 ^ 42 <= BN.of_hex (sig_s sig) ->
  exists out,
    signRS fuel kp msg rng i = Some (Ok (out, j)) /\
    List.length (rs_r out) = 32%nat /\
    BN.of_bytes (rs_r out) = BN.of_hex (sig_r sig) /\
    List.length (rs_s out) = 32%nat /\
    BN.of_bytes (rs_s out) = BN.of_hex (sig_s sig) /\
    priToPub kp = Ok (rs_pub out).
Proof.
  intros Hpub Hsign Hr Hs.
  assert (Hn : n < 2 ^ 256) by reflexivity.
  assert (Hv : exists rv sv,
             sig = mkSig (toString16 rv) (toString16 sv) /\
             1 <= rv <= n - 1 /\ 1 <= sv <= n - 1).
  { unfold sign in Hsign. destruct (pri kp); [|discriminate].
    destruct (c <- _combine kp (MArray msg) ;; sm3_sum (MArray c)) as [e|e];
      [|discriminate].
    apply (signDigest_loop_values _ _ _ _ _ _ _ Hsign). }
  destruct Hv as [rv [sv [-> [Hrv Hsv]]]]. cbn [sig_r sig_s] in *.
  rewrite of_hex_toString16 in Hr, Hs by lia.
  destruct (toString16_spec rv ltac:(lia)) as [Hhr [_ [Hdr _]]].
  destruct (toString16_spec sv ltac:(lia)) as [Hhs [_ [Hds _]]].
  destruct (pad64_spec _ Hhr (big_hex_length rv ltac:(lia))) as [Lr Vr].
  destruct (pad64_spec _ Hhs (big_hex_length sv ltac:(lia))) as [Ls Vs].
  unfold signRS, priToPub, the_pub. rewrite Hpub. cbn [bind getX getY].
  rewrite Hsign. cbv zeta. cbn [sig_r sig_s].
  eexists. split; [reflexivity|]. cbn [rs_r rs_s rs_pub].
  rewrite !of_hex_toString16 by lia.
  split; [exact Lr|]. split; [rewrite Vr, Hdr; lia|].
  split; [exact Ls|]. split; [rewrite Vs, Hds; lia|]. reflexivity.
Qed.

Lemma signRS_buffers_witness :
  exists out,
    signRS 1 (mkKeyPair (Some g) (Some 1)) [97; 98; 99]
           (fun _ => repeat 0 31 ++ [1]) 0 = Some (Ok (out, 1%nat)) /\
    List.length (rs_r out) = 32%nat /\
    BN.of_bytes (rs_r out)
    = BN.of_hex "1527cca3ee51d58406681400fbde52e50a5f22b14d7ba4564202697caafdaf39".
Proof.
  destruct (signRS_buffers 1 (mkKeyPair (Some g) (Some 1)) [97; 98; 99]
              (fun _ => repeat 0 31 ++ [1]) 0 1
              (mkSig "1527cca3ee51d58406681400fbde52e50a5f22b14d7ba4564202697caafdaf39"
                     "f56c19ad08d7153dfccbf5ff8210d68cecd44e127b08330032babf4ae4566987")
              gx gy eq_refl
              ltac:(vm_compute; reflexivity)
              ltac:(vm_compute; discriminate)
              ltac:(vm_compute; discriminate))
    as [out [E [Lr [Vr _]]]].
  exists out. split; [exact E|]. split; [exact Lr | exact Vr].
Defined.

End Helpers.
